(** * lightning-thunder: stack-effect metadata, the autograd bridge and the
    benchmark's output naming, embedded from the Python sources.

    - [python_ir_data]  : thunder/core/script/python_ir_data.py
    - [bench]           : benchmarks/nanogpt_training_bench.py
    - [torch_autograd]  : thunder/executors/torch_autograd.py

    Python integers are unbounded, hence [Z]; Python exceptions are the
    [Err] branch of [result]. *)

From Stdlib Require Import ZArith Lia.
From stdpp Require Import base gmap strings list pretty.

Open Scope Z_scope.

(** ** Exceptions and fallible results *)

Inductive exn : Type :=
| ValueError (msg : string)
| RuntimeError (msg : string)
| AssertionError
| IndexError
| KeyError (key : string)
| TypeError
| AttributeError (attr : string).

Inductive result (A : Type) : Type :=
| Ok (a : A)
| Err (e : exn).
Arguments Ok {A} a.
Arguments Err {A} e.

#[global] Instance result_ret : MRet result := λ A a, Ok a.

#[global] Instance result_bind : MBind result := λ A B k r,
  match r with
  | Ok a => k a
  | Err e => Err e
  end.

(** [l[i]] for a constant non-negative index. *)
Definition list_index {A} (l : list A) (i : nat) : result A :=
  match l !! i with Some x => Ok x | None => Err IndexError end.

(** ** thunder/core/script/python_ir_data.py *)

Module python_ir_data.

(** The dict literal [fixed_stack_effects_detail], in source order. *)
Definition fixed_stack_effects_items : list (string * (Z * Z)) :=
  [ ("NOP", (0, 0));
    ("EXTENDED_ARG", (0, 0));
    ("POP_TOP", (1, 0));
    ("ROT_TWO", (2, 2));
    ("ROT_THREE", (3, 3));
    ("ROT_FOUR", (4, 4));
    ("DUP_TOP", (1, 2));
    ("DUP_TOP_TWO", (2, 4));
    ("UNARY_POSITIVE", (1, 1));
    ("UNARY_NEGATIVE", (1, 1));
    ("UNARY_NOT", (1, 1));
    ("UNARY_INVERT", (1, 1));
    ("SET_ADD", (2, 1));
    ("LIST_APPEND", (2, 1));
    ("MAP_ADD", (3, 1));
    ("BINARY_POWER", (2, 1));
    ("BINARY_MULTIPLY", (2, 1));
    ("BINARY_MATRIX_MULTIPLY", (2, 1));
    ("BINARY_MODULO", (2, 1));
    ("BINARY_ADD", (2, 1));
    ("BINARY_SUBTRACT", (2, 1));
    ("BINARY_SUBSCR", (2, 1));
    ("BINARY_FLOOR_DIVIDE", (2, 1));
    ("BINARY_TRUE_DIVIDE", (2, 1));
    ("INPLACE_FLOOR_DIVIDE", (2, 1));
    ("INPLACE_TRUE_DIVIDE", (2, 1));
    ("INPLACE_ADD", (2, 1));
    ("INPLACE_SUBTRACT", (2, 1));
    ("INPLACE_MULTIPLY", (2, 1));
    ("INPLACE_MATRIX_MULTIPLY", (2, 1));
    ("INPLACE_MODULO", (2, 1));
    ("BINARY_LSHIFT", (2, 1));
    ("BINARY_RSHIFT", (2, 1));
    ("BINARY_AND", (2, 1));
    ("BINARY_XOR", (2, 1));
    ("BINARY_OR", (2, 1));
    ("INPLACE_POWER", (2, 1));
    ("INPLACE_LSHIFT", (2, 1));
    ("INPLACE_RSHIFT", (2, 1));
    ("INPLACE_AND", (2, 1));
    ("INPLACE_XOR", (2, 1));
    ("INPLACE_OR", (2, 1));
    ("STORE_SUBSCR", (3, 0));
    ("DELETE_SUBSCR", (2, 0));
    ("GET_ITER", (1, 1));
    ("PRINT_EXPR", (1, 0));
    ("LOAD_BUILD_CLASS", (0, 1));
    ("RETURN_VALUE", (1, 0));
    ("IMPORT_STAR", (1, 0));
    ("SETUP_ANNOTATIONS", (0, 0));
    ("YIELD_VALUE", (1, 1));
    ("YIELD_FROM", (2, 1));
    ("POP_BLOCK", (0, 0));
    ("POP_EXCEPT", (3, 0));
    ("STORE_NAME", (1, 0));
    ("DELETE_NAME", (0, 0));
    ("STORE_ATTR", (2, 0));
    ("DELETE_ATTR", (1, 0));
    ("STORE_GLOBAL", (1, 0));
    ("DELETE_GLOBAL", (0, 0));
    ("LOAD_CONST", (0, 1));
    ("LOAD_NAME", (0, 1));
    ("LOAD_ATTR", (1, 1));
    ("COMPARE_OP", (2, 1));
    ("IS_OP", (2, 1));
    ("CONTAINS_OP", (2, 1));
    ("JUMP_IF_NOT_EXC_MATCH", (2, 0));
    ("IMPORT_NAME", (2, 1));
    ("IMPORT_FROM", (1, 2));
    ("JUMP_FORWARD", (0, 0));
    ("JUMP_ABSOLUTE", (0, 0));
    ("POP_JUMP_IF_FALSE", (1, 0));
    ("POP_JUMP_IF_TRUE", (1, 0));
    ("LOAD_GLOBAL", (0, 1));
    ("RERAISE", (3, 0));
    ("WITH_EXCEPT_START", (7, 8));
    ("LOAD_FAST", (0, 1));
    ("STORE_FAST", (1, 0));
    ("DELETE_FAST", (0, 0));
    ("LOAD_CLOSURE", (0, 1));
    ("LOAD_DEREF", (0, 1));
    ("LOAD_CLASSDEREF", (0, 1));
    ("STORE_DEREF", (1, 0));
    ("DELETE_DEREF", (0, 0));
    ("GET_AWAITABLE", (1, 1));
    ("BEFORE_ASYNC_WITH", (1, 2));
    ("GET_AITER", (1, 1));
    ("GET_ANEXT", (1, 2));
    ("GET_YIELD_FROM_ITER", (1, 1));
    ("END_ASYNC_FOR", (7, 0));
    ("LOAD_METHOD", (1, 2));
    ("LOAD_ASSERTION_ERROR", (0, 1));
    ("LIST_TO_TUPLE", (1, 1));
    ("GEN_START", (1, 0));
    ("LIST_EXTEND", (2, 1));
    ("SET_UPDATE", (2, 1));
    ("DICT_MERGE", (2, 1));
    ("DICT_UPDATE", (2, 1));
    ("COPY_DICT_WITHOUT_KEYS", (2, 2));
    ("MATCH_CLASS", (3, 2));
    ("GET_LEN", (1, 2));
    ("MATCH_MAPPING", (1, 2));
    ("MATCH_SEQUENCE", (1, 2));
    ("MATCH_KEYS", (2, 4)) ].

(** A dict display inserts its items left to right, a later item
    overriding an earlier one with the same key. *)
Definition dict_of_items {V} (items : list (string * V)) : gmap string V :=
  foldl (λ d kv, <[kv.1 := kv.2]> d) ∅ items.

Definition fixed_stack_effects_detail : gmap string (Z * Z) :=
  dict_of_items fixed_stack_effects_items.

(** [int(x != 0)]: a Python bool used as a summand. *)
Definition nonzero (x : Z) : Z := Z.b2z (negb (x =? 0)).

(** The [elif] chain of [stack_effect_detail], reached when the name is
    not a key of the fixed table. *)
Definition computed_stack_effect (opname : string) (oparg : Z) (jump : bool)
  : result (Z * Z) :=
  if bool_decide (opname = "ROT_N") then Ok (oparg, oparg)
  else if bool_decide (opname ∈ ({[ "BUILD_TUPLE"; "BUILD_LIST"; "BUILD_SET"; "BUILD_STRING" ]} : gset string))
    then Ok (oparg, 1)
  else if bool_decide (opname = "BUILD_MAP") then Ok (2 * oparg, 1)
  else if bool_decide (opname = "BUILD_CONST_KEY_MAP") then Ok (oparg + 1, 1)
  else if bool_decide (opname ∈ ({[ "JUMP_IF_TRUE_OR_POP"; "JUMP_IF_FALSE_OR_POP" ]} : gset string))
    then (if jump then Ok (1, 1) else Ok (1, 0))
  else if bool_decide (opname = "SETUP_FINALLY")
    then (if jump then Ok (0, 6) else Ok (0, 0))
  else if bool_decide (opname = "RAISE_VARARGS") then Ok (oparg, 0)
  else if bool_decide (opname = "CALL_FUNCTION") then Ok (oparg + 1, 1)
  else if bool_decide (opname = "CALL_METHOD") then Ok (oparg + 2, 1)
  else if bool_decide (opname = "CALL_FUNCTION_KW") then Ok (oparg + 2, 1)
  else if bool_decide (opname = "CALL_FUNCTION_EX")
    then Ok (2 + nonzero (Z.land oparg 1), 1)
  else if bool_decide (opname = "MAKE_FUNCTION")
    then Ok (2 + nonzero (Z.land oparg 1) + nonzero (Z.land oparg 2)
               + nonzero (Z.land oparg 4) + nonzero (Z.land oparg 8), 1)
  else if bool_decide (opname = "BUILD_SLICE") then Ok (oparg, 1)
  else if bool_decide (opname = "SETUP_ASYNC_WITH")
    then (if jump then Ok (1, 6) else Ok (0, 0))
  else if bool_decide (opname = "FORMAT_VALUE")
    then (if negb (Z.land oparg 4 =? 0) then Ok (2, 1) else Ok (1, 1))
  else if bool_decide (opname = "UNPACK_SEQUENCE") then Ok (1, oparg)
  else if bool_decide (opname = "UNPACK_EX")
    then Ok (1, Z.land oparg 255 + Z.shiftr oparg 8 + 1)
  else if bool_decide (opname = "FOR_ITER")
    then (if jump then Ok (1, 0) else Ok (1, 2))
  else Err (ValueError ("Invalid opname " +:+ opname)).

(** The names tested by the [elif] chain. *)
Definition computed_opnames : gset string :=
  {[ "ROT_N"; "BUILD_TUPLE"; "BUILD_LIST"; "BUILD_SET"; "BUILD_STRING";
     "BUILD_MAP"; "BUILD_CONST_KEY_MAP"; "JUMP_IF_TRUE_OR_POP";
     "JUMP_IF_FALSE_OR_POP"; "SETUP_FINALLY"; "RAISE_VARARGS";
     "CALL_FUNCTION"; "CALL_METHOD"; "CALL_FUNCTION_KW"; "CALL_FUNCTION_EX";
     "MAKE_FUNCTION"; "BUILD_SLICE"; "SETUP_ASYNC_WITH"; "FORMAT_VALUE";
     "UNPACK_SEQUENCE"; "UNPACK_EX"; "FOR_ITER" ]}.

Definition stack_effect_detail (opname : string) (oparg : Z) (jump : bool)
  : result (Z * Z) :=
  match fixed_stack_effects_detail !! opname with
  | Some effect => Ok effect
  | None => computed_stack_effect opname oparg jump
  end.

(** A member of a Python set that mixes opcode numbers and names. *)
Inductive pyatom : Type :=
| AInt (n : Z)
| AStr (s : string).

#[global] Instance pyatom_eq_dec : EqDecision pyatom.
Proof. solve_decision. Defined.

#[global] Instance pyatom_countable : Countable pyatom.
Proof.
  refine (inj_countable'
    (λ a, match a with AInt n => inl n | AStr s => inr s end)
    (λ x, match x with inl n => AInt n | inr s => AStr s end) _).
  by intros [].
Defined.

(** [jump_instructions = set(dis.hasjabs) | set(dis.hasjrel)].  The two
    [dis] sequences belong to the interpreter's standard library and hold
    opcode numbers; they are arguments here. *)
Definition jump_instructions (hasjabs hasjrel : list Z) : gset pyatom :=
  list_to_set (AInt <$> hasjabs) ∪ list_to_set (AInt <$> hasjrel).

(** [dis.hasjabs] and [dis.hasjrel] of CPython 3.10, the release the
    source file targets. *)
Definition hasjabs_310 : list Z := [111; 112; 113; 114; 115; 121].
Definition hasjrel_310 : list Z := [93; 110; 122; 143; 154].

Definition unconditional_jump_names : gset pyatom :=
  {[ AStr "JUMP_ABSOLUTE"; AStr "JUMP_FORWARD"; AStr "JUMP_BACKWARD";
     AStr "JUMP_BACKWARD_NO_INTERRUPT" ]}.

(** *** The operand-dependent rules as the specification tabulates them

    One row per instruction: the (pop, push) pair as a function of the
    operand and of the branch-taken flag.  "bit k of operand" is
    [Z.testbit]. *)
Definition bit (k : Z) (operand : Z) : Z := Z.b2z (Z.testbit operand k).

Definition rule := Z → bool → Z * Z.

Definition spec_rule_rows : list (string * rule) :=
  [ ("ROT_N", λ (operand : Z) (_ : bool), (operand, operand));
    ("BUILD_TUPLE", λ (operand : Z) (_ : bool), (operand, 1));
    ("BUILD_LIST", λ (operand : Z) (_ : bool), (operand, 1));
    ("BUILD_SET", λ (operand : Z) (_ : bool), (operand, 1));
    ("BUILD_STRING", λ (operand : Z) (_ : bool), (operand, 1));
    ("BUILD_MAP", λ (operand : Z) (_ : bool), (2 * operand, 1));
    ("BUILD_CONST_KEY_MAP", λ (operand : Z) (_ : bool), (operand + 1, 1));
    ("JUMP_IF_TRUE_OR_POP", λ (_ : Z) (taken : bool), (1, if taken then 1 else 0));
    ("JUMP_IF_FALSE_OR_POP", λ (_ : Z) (taken : bool), (1, if taken then 1 else 0));
    ("SETUP_FINALLY", λ (_ : Z) (taken : bool), (0, if taken then 6 else 0));
    ("RAISE_VARARGS", λ (operand : Z) (_ : bool), (operand, 0));
    ("CALL_FUNCTION", λ (operand : Z) (_ : bool), (operand + 1, 1));
    ("CALL_METHOD", λ (operand : Z) (_ : bool), (operand + 2, 1));
    ("CALL_FUNCTION_KW", λ (operand : Z) (_ : bool), (operand + 2, 1));
    ("CALL_FUNCTION_EX", λ (operand : Z) (_ : bool), (2 + bit 0 operand, 1));
    ("MAKE_FUNCTION", λ (operand : Z) (_ : bool),
       (2 + (bit 0 operand + bit 1 operand + bit 2 operand + bit 3 operand), 1));
    ("BUILD_SLICE", λ (operand : Z) (_ : bool), (operand, 1));
    ("SETUP_ASYNC_WITH", λ (_ : Z) (taken : bool),
       (if taken then 1 else 0, if taken then 6 else 0));
    ("FORMAT_VALUE", λ (operand : Z) (_ : bool),
       (if Z.testbit operand 2 then 2 else 1, 1));
    ("UNPACK_SEQUENCE", λ (operand : Z) (_ : bool), (1, operand));
    ("UNPACK_EX", λ (operand : Z) (_ : bool),
       (1, Z.land operand 255 + Z.shiftr operand 8 + 1));
    ("FOR_ITER", λ (_ : Z) (taken : bool), (1, if taken then 0 else 2)) ].

Definition spec_rules : gmap string rule := dict_of_items spec_rule_rows.

End python_ir_data.

(** ** benchmarks/nanogpt_training_bench.py *)

Module bench.

Section harness.
(** [bucket_size_in_mb] is a Python float; the text [str] gives for it
    is the interpreter's business and is taken as a parameter. *)
Context {float : Type} (str_of_float : float → string).

(** The parsed flags read by the naming code, and the distributed run
    context: [dist_rank] is [Some r] when the process group was
    initialised (both WORLD_SIZE and LOCAL_RANK present), [r] being
    [torch.distributed.get_rank()], and [None] in a single-process run. *)
Record harness : Type := {
  model : string;
  dtype : string;
  seq_len : Z;
  bucket_size_in_mb : float;
  delay_allreduce : bool;
  dist_rank : option Z;
}.

Definition use_ddp (h : harness) : bool :=
  match dist_rank h with Some _ => true | None => false end.

Definition is_initialized (h : harness) : bool := use_ddp h.

(** [save_files = not (is_initialized() and get_rank() != 0)] *)
Definition save_files (h : harness) : bool :=
  negb (match dist_rank h with
        | Some r => is_initialized h && negb (r =? 0)
        | None => false
        end).

Definition dir_for_outputs (h : harness) : option string :=
  if save_files h then
    Some ("./thunder_traces/" +:+ model h +:+ "_" +:+ dtype h +:+ "_seq-"
          +:+ pretty (seq_len h)
          +:+ (if use_ddp h
               then "_ddp_bucket_size-" +:+ str_of_float (bucket_size_in_mb h)
               else "")
          +:+ (if use_ddp h && delay_allreduce h
               then "_delayed_allreduce" else ""))
  else None.
End harness.

Arguments harness : clear implicits.

End bench.

(** ** thunder/executors/torch_autograd.py *)

(** *** A state-and-error monad

    A computation reads and writes a state of type [S] and either returns
    a value or raises; the state reached when an exception is raised is
    kept, so that what happened before the raise stays observable. *)

Definition M (S A : Type) : Type := S → result A * S.

#[global] Instance M_ret {S} : MRet (M S) := λ A a s, (Ok a, s).

#[global] Instance M_bind {S} : MBind (M S) := λ A B k m s,
  match m s with
  | (Ok a, s') => k a s'
  | (Err e, s') => (Err e, s')
  end.

Definition raise {S A} (e : exn) : M S A := λ s, (Err e, s).

Definition of_result {S A} (r : result A) : M S A := λ s, (r, s).

Definition py_assert {S} (b : bool) : M S unit :=
  if b then mret () else raise AssertionError.

(** The state is a pair: the world of the external compiler and runtime,
    and the part owned by the modelled code. *)
Definition lift {W X A} (e : M W A) : M (W * X) A := λ s,
  let '(r, w') := e s.1 in (r, (w', s.2)).

Definition get_own {W X} : M (W * X) X := λ s, (Ok s.2, s).

Definition put_own {W X} (x : X) : M (W * X) unit := λ s, (Ok (), (s.1, x)).

(** A computation that leaves the own part of the state alone. *)
Definition keeps_own {W X A} (m : M (W * X) A) : Prop :=
  ∀ s r s', m s = (r, s') → s'.2 = s.2.

(** Run a computation from a given own state and forget that state. *)
Definition run_own {W X A} (m : M (W * X) A) (x : X) : M W A := λ w,
  let '(r, s') := m (w, x) in (r, s'.1).

Fixpoint mapM {S A B} (f : A → M S B) (l : list A) : M S (list B) :=
  match l with
  | [] => mret []
  | a :: l' => b ← f a; bs ← mapM f l'; mret (b :: bs)
  end.

Fixpoint forM_ {S A} (f : A → M S unit) (l : list A) : M S unit :=
  match l with
  | [] => mret ()
  | a :: l' => f a;; forM_ f l'
  end.

Module torch_autograd.

(** **** Values, containers, bound symbols, traces *)

Record ProcessGroup : Type := { pg_name : string; pg_size : Z }.

(** Python objects that reach the bridge.  [VFloat n] is [float(n)] for
    an integer [n], the only floats the bridge creates. *)
Inductive value : Type :=
| VNone
| VBool (b : bool)
| VInt (n : Z)
| VFloat (n : Z)
| VStr (s : string)
| VTorchTensor (id : string) (requires_grad : bool)
| VTensorProxy (name : string) (requires_grad : bool)
| VFutureTensorProxy (name : string)
| VProxy (name : string)
| VProcessGroup (pg : ProcessGroup)
| VObject (id : string).

#[global] Instance ProcessGroup_eq_dec : EqDecision ProcessGroup.
Proof. solve_decision. Defined.

#[global] Instance value_eq_dec : EqDecision value.
Proof. solve_decision. Defined.

(** Nested tuples, lists and dicts of values. *)
#[warnings="-register-all"]
Inductive pytree : Type :=
| Leaf (v : value)
| Node (children : list pytree).

(** Modelled from the spec: [tree_flatten] of thunder.core.pytree (absent
    from this slice) gives the ordered leaf sequence; [None] is a leaf. *)
Fixpoint tree_flatten (t : pytree) : list value :=
  match t with
  | Leaf v => [v]
  | Node children => flat_map tree_flatten children
  end.

Fixpoint pytree_eqb (t1 t2 : pytree) : bool :=
  match t1, t2 with
  | Leaf a, Leaf b => bool_decide (a = b)
  | Node l1, Node l2 =>
      (fix go (l1 l2 : list pytree) : bool :=
         match l1, l2 with
         | [], [] => true
         | x :: l1, y :: l2 => pytree_eqb x y && go l1 l2
         | _, _ => false
         end) l1 l2
  | _, _ => false
  end.

(** [t[i]] for a constant non-negative index. *)
Definition tree_index (t : pytree) (i : nat) : result pytree :=
  match t with
  | Node children =>
      match children !! i with Some c => Ok c | None => Err IndexError end
  | Leaf _ => Err TypeError
  end.

(** Iterating a container. *)
Definition tree_iter (t : pytree) : result (list pytree) :=
  match t with
  | Node children => Ok children
  | Leaf _ => Err TypeError
  end.

(** [len(t)] *)
Definition tree_len (t : pytree) : result Z :=
  match t with
  | Node children => Ok (Z.of_nat (length children))
  | Leaf _ => Err TypeError
  end.

Inductive sym_id : Type :=
| RETURN
| UNPACK_TRIVIAL
| UNPACK_SEQUENCE
| WAIT
| TRUE_DIVIDE
| ALL_REDUCE
| OTHER_SYM (name : string).

#[global] Instance sym_id_eq_dec : EqDecision sym_id.
Proof. solve_decision. Defined.

Record BoundSymbol : Type := {
  sym : sym_id;
  args : list pytree;
  kwargs : gmap string value;
  output : pytree;
}.

Definition _flat_outs (bsym : BoundSymbol) : list value :=
  tree_flatten (output bsym).

(** [dataclasses.replace(bsym, args=new_args)] *)
Definition replace_args (bsym : BoundSymbol) (new_args : list pytree) : BoundSymbol :=
  {| sym := sym bsym; args := new_args; kwargs := kwargs bsym;
     output := output bsym |}.

Record TraceCtx : Type := {
  bound_symbols : list BoundSymbol;
  trace_args : pytree;
  trace_output : pytree;
}.

Definition set_bound_symbols (t : TraceCtx) (bsyms : list BoundSymbol) : TraceCtx :=
  {| bound_symbols := bsyms; trace_args := trace_args t;
     trace_output := trace_output t |}.

(** [isinstance(v, TensorProxy)] *)
Definition is_TensorProxy (v : value) : bool :=
  match v with VTensorProxy _ _ => true | _ => false end.

(** [isinstance(v, (torch.Tensor, TensorProxy)) and v.requires_grad] *)
Definition tensor_requires_grad (v : value) : bool :=
  match v with
  | VTorchTensor _ requires_grad | VTensorProxy _ requires_grad => requires_grad
  | _ => false
  end.

(** The [name] attribute, present on proxies only. *)
Definition proxy_name (v : value) : option string :=
  match v with
  | VTensorProxy name _ | VFutureTensorProxy name | VProxy name => Some name
  | _ => None
  end.

(** Modelled from the spec: [variableify] of thunder.core.proxies (absent
    from this slice), the normalized identity under which proxies are
    compared: a proxy is identified by its name, anything else by itself. *)
Inductive variable : Type :=
| ProxyVar (name : string)
| NotAProxy (t : pytree).

Definition variableify (t : pytree) : variable :=
  match t with
  | Leaf v => match proxy_name v with
              | Some name => ProxyVar name
              | None => NotAProxy t
              end
  | Node _ => NotAProxy t
  end.

Definition variable_eqb (x y : variable) : bool :=
  match x, y with
  | ProxyVar a, ProxyVar b => bool_decide (a = b)
  | NotAProxy a, NotAProxy b => pytree_eqb a b
  | _, _ => false
  end.

(** **** Compile configuration, data and statistics *)

Inductive cfg_value : Type :=
| CNone
| CBool (b : bool)
| CExecutors (names : list string).

Definition truthy (c : cfg_value) : bool :=
  match c with
  | CNone => false
  | CBool b => b
  | CExecutors names => negb (bool_decide (names = []))
  end.

(** [d.get(key, default)] *)
Definition dict_get {V} (d : gmap string V) (key : string) (default : V) : V :=
  match d !! key with Some v => v | None => default end.

Record CompileData : Type := {
  use_cudagraphs : bool;
  num_constant_args : Z;
}.

Record CompileStats : Type := {
  primal_trace : option TraceCtx;
  forward_last_traces : list TraceCtx;
  backward_last_traces : list TraceCtx;
}.

(** What the routine returns: the callable a trace compiles to, possibly
    wrapped in the capture/replay executor. *)
Inductive callable : Type :=
| python_callable (trace : TraceCtx)
| CUDAGraphExecutor (fn : callable) (num_constant_args : Z).

Inductive VISIT_TYPE : Type := NO_OP | REPLACE | INSERT_AFTER.

(** **** The compiler core and the runtime, as the bridge sees them

    None of these lives in this slice.  Each pass may read and write the
    world [W] and may raise.  [meta] is what calling a symbol while
    tracing computes for its output (it names fresh proxies, hence the
    world). *)
Class Externals (W : Type) : Type := {
  sig_bind : pytree → result pytree;
  make_trace : option CompileData → pytree → M W TraceCtx;
  sort_data_parallel_syncs : TraceCtx → M W TraceCtx;
  forward_and_backward_from_trace : TraceCtx → M W (TraceCtx * TraceCtx);
  transform_for_execution : TraceCtx → cfg_value → M W TraceCtx;
  replace_redundant_inputs :
    list (variable * pytree) → list BoundSymbol → M W (list BoundSymbol);
  from_bsym_swap_proxies : BoundSymbol → list (variable * pytree) → M W BoundSymbol;
  rematerialize_forward_and_backward : TraceCtx → TraceCtx → M W (TraceCtx * TraceCtx);
  sort_waits : TraceCtx → M W TraceCtx;
  del_last_used : TraceCtx → M W TraceCtx;
  from_trace : TraceCtx → TraceCtx;
  _get_default_group : M W ProcessGroup;
  meta : sym_id → list pytree → gmap string value → M W pytree;
}.

(** **** [split_forward_backward] *)

(** [utils.safe_zip] of thunder.core.utils is absent from this slice and
    the specification is silent on it; as its name says, it zips sequences
    of equal length and fails on a length mismatch. *)
Definition safe_zip {A B} (xs : list A) (ys : list B) : result (list (A * B)) :=
  if bool_decide (length xs = length ys) then Ok (zip xs ys)
  else Err AssertionError.

Definition no_grad_message : string :=
  "PyTorch's Autograd interface requires at least one tensor input with requires_grad=True".

(** Lines 60-69: keep a gradient only where the flat input requires one. *)
Definition filter_input_grads (bw_trace : TraceCtx) (requires_grad_mask : list bool)
  : result TraceCtx :=
  let bsyms := bound_symbols bw_trace in
  match last bsyms with
  | None => Err IndexError
  | Some ret =>
      if negb (bool_decide (sym ret = RETURN)) then Err AssertionError
      else
        grads_tree ← list_index (args ret) 0;
        grads ← tree_iter grads_tree;
        pairs ← safe_zip grads requires_grad_mask;
        let filtered_grads :=
          (λ p : pytree * bool, if p.2 then p.1 else Leaf VNone) <$> pairs in
        Ok (set_bound_symbols bw_trace
              (<[pred (length bsyms) := replace_args ret [Node filtered_grads]]> bsyms))
  end.

(** The dict comprehension building [swap_map], as its items in order. *)
Definition make_swap_map (original new : list pytree) : list (variable * pytree) :=
  (λ p : pytree * pytree, (variableify p.1, p.2))
    <$> filter (λ p : pytree * pytree,
                  negb (variable_eqb (variableify p.1) (variableify p.2)) = true)
               (zip original new).

(** [a.name] *)
Definition name_attr (t : pytree) : result string :=
  match t with
  | Leaf v => match proxy_name v with
              | Some name => Ok name
              | None => Err (AttributeError "name")
              end
  | Node _ => Err (AttributeError "name")
  end.

Section split.
Context {W : Type} {E : Externals W}.

Abbreviation S := (W * option CompileStats)%type.

(** Lines 38-48: bind the call, flatten, and insist on one input that
    requires a gradient. *)
Definition bind_and_check (call_args : pytree) : M S (pytree * list bool) :=
  ba ← of_result (sig_bind call_args);
  let flat_args := tree_flatten ba in
  let requires_grad_mask := tensor_requires_grad <$> flat_args in
  if negb (existsb id requires_grad_mask)
  then raise (RuntimeError no_grad_message)
  else mret (ba, requires_grad_mask).

(** Lines 50-58. *)
Definition trace_and_differentiate (compile_data : option CompileData) (ba : pytree)
  : M S (TraceCtx * TraceCtx * TraceCtx) :=
  primal_trace ← lift (make_trace compile_data ba);
  primal_trace ← lift (sort_data_parallel_syncs primal_trace);
  '(fw_trace, bw_trace) ← lift (forward_and_backward_from_trace primal_trace);
  mret (primal_trace, fw_trace, bw_trace).

(** Lines 81-102: carry the forward trace's renamed saved tensors over
    to the backward trace. *)
Definition patch_saved_tensors (fw_extrace bw_trace : TraceCtx) : M S TraceCtx :=
  original ← of_result (a0 ← tree_index (trace_args bw_trace) 0; tree_index a0 0);
  new ← of_result (o1 ← tree_index (trace_output fw_extrace) 1; tree_index o1 0);
  xs ← of_result (tree_iter original);
  ys ← of_result (tree_iter new);
  let swap_map := make_swap_map xs ys in
  new_bsyms ← lift (replace_redundant_inputs swap_map (bound_symbols bw_trace));
  b0 ← of_result (list_index (bound_symbols bw_trace) 0);
  py_assert (bool_decide (sym b0 = UNPACK_TRIVIAL));;
  name ← of_result (match kwargs b0 !! "name" with
                    | Some v => Ok v
                    | None => Err (KeyError "name")
                    end);
  py_assert (bool_decide (name = VStr "saved_for_backward"));;
  b4 ← of_result (list_index (bound_symbols bw_trace) 4);
  py_assert (bool_decide (sym b4 = UNPACK_SEQUENCE));;
  c0 ← of_result (a ← list_index (args b4) 0; name_attr a);
  py_assert (bool_decide (c0 = "C0"));;
  nb4 ← of_result (list_index new_bsyms 4);
  nb4' ← lift (from_bsym_swap_proxies nb4 swap_map);
  mret (set_bound_symbols bw_trace (<[4%nat := nb4']> new_bsyms)).

(** Lines 71-119. *)
Definition optimize (compile_config : gmap string cfg_value)
    (fw_trace bw_trace : TraceCtx) : M S (TraceCtx * TraceCtx) :=
  fw_extrace ← lift (transform_for_execution fw_trace
                       (dict_get compile_config "executors_list" CNone));
  bw_trace ← patch_saved_tensors fw_extrace bw_trace;
  bw_extrace ← lift (transform_for_execution bw_trace
                       (dict_get compile_config "executors_list" CNone));
  '(fw_extrace, bw_extrace) ← lift (rematerialize_forward_and_backward fw_extrace bw_extrace);
  bw_extrace ← lift (sort_waits bw_extrace);
  fw_extrace ← lift (del_last_used fw_extrace);
  bw_extrace ← lift (del_last_used bw_extrace);
  mret (fw_extrace, bw_extrace).

(** Lines 121-133. *)
Definition record_and_wrap (compile_config : gmap string cfg_value)
    (compile_data : option CompileData) (primal_trace fw_extrace bw_extrace : TraceCtx)
  : M S (callable * callable) :=
  compile_stats ← get_own;
  match compile_stats with
  | Some _ =>
      put_own (Some {| primal_trace := Some primal_trace;
                       forward_last_traces := [fw_extrace];
                       backward_last_traces := [bw_extrace] |});;
      cd ← match compile_data with
           | Some cd => mret cd
           | None => raise (AttributeError "use_cudagraphs")
           end;
      if use_cudagraphs cd
         || truthy (dict_get compile_config "use_cudagraphs" (CBool false))
      then
        n ← of_result (a0 ← tree_index (trace_args bw_extrace) 0;
                       a00 ← tree_index a0 0;
                       tree_len a00);
        mret (CUDAGraphExecutor (python_callable fw_extrace) (num_constant_args cd),
              CUDAGraphExecutor (python_callable bw_extrace) n)
      else mret (python_callable fw_extrace, python_callable bw_extrace)
  | None => mret (python_callable fw_extrace, python_callable bw_extrace)
  end.

Definition split_forward_backward (compile_config : gmap string cfg_value)
    (compile_data : option CompileData) (call_args : pytree)
  : M S (callable * callable) :=
  '(ba, requires_grad_mask) ← bind_and_check call_args;
  '(primal_trace, fw_trace, bw_trace) ← trace_and_differentiate compile_data ba;
  bw_trace ← of_result (filter_input_grads bw_trace requires_grad_mask);
  '(fw_extrace, bw_extrace) ← optimize compile_config fw_trace bw_trace;
  record_and_wrap compile_config compile_data primal_trace fw_extrace bw_extrace.

End split.

(** **** What the returned callables run *)

(** The trace a returned callable runs. *)
Fixpoint callable_trace (c : callable) : TraceCtx :=
  match c with
  | python_callable trace => trace
  | CUDAGraphExecutor fn _ => callable_trace fn
  end.

(** A pass that leaves the last bound symbol of a trace as it is. *)
Definition keeps_return {W} (pass : TraceCtx → M W TraceCtx) : Prop :=
  ∀ trace w trace' w',
    pass trace w = (Ok trace', w') →
    last (bound_symbols trace') = last (bound_symbols trace).

(** The passes that lines 71-119 run on the backward trace leave its
    return alone: none of them lives in this slice, so this is a property
    a compiler core may or may not have. *)
Definition backward_passes_keep_return {W} {E : Externals W} : Prop :=
  (∀ executors_list, keeps_return (λ trace, transform_for_execution trace executors_list))
  ∧ keeps_return sort_waits
  ∧ keeps_return del_last_used
  ∧ (∀ fw bw w fw' bw' w',
       rematerialize_forward_and_backward fw bw w = (Ok (fw', bw'), w') →
       last (bound_symbols bw') = last (bound_symbols bw))
  ∧ (∀ swap_map bsyms w bsyms' w',
       replace_redundant_inputs swap_map bsyms w = (Ok bsyms', w') →
       length bsyms' = length bsyms ∧ last bsyms' = last bsyms).

(** **** [insert_bsym_to_allreduce_grads] *)

(** The trace being rewritten: the bound symbols already emitted, those
    recorded during the current visit, and the visitor's [grad_to_future]
    table (a [ProxyDict], keyed by proxy name). *)
Record tracer : Type := {
  emitted : list BoundSymbol;
  scope : list BoundSymbol;
  grad_to_future : gmap string pytree;
}.

Definition bsym_of (id : sym_id) (a : list pytree) (kw : gmap string value)
    (out : pytree) : BoundSymbol :=
  {| sym := id; args := a; kwargs := kw; output := out |}.

(** [grad_to_future[grad] = True] for every [TensorProxy] of the return. *)
Definition init_grad_to_future (gradients : list value) : gmap string pytree :=
  foldl (λ d grad,
           if is_TensorProxy grad
           then match proxy_name grad with
                | Some name => <[name := Leaf (VBool true)]> d
                | None => d
                end
           else d)
        ∅ gradients.

(** [isinstance(t, TensorProxy) and t in grad_to_future] *)
Definition is_tracked_grad (table : gmap string pytree) (t : value) : bool :=
  is_TensorProxy t
  && match proxy_name t with
     | Some name => bool_decide (is_Some (table !! name))
     | None => false
     end.

Definition all_reduce_kwargs (pg : ProcessGroup) : gmap string value :=
  {[ "group" := VProcessGroup pg; "async_op" := VBool true ]}.

Section allreduce.
Context {W : Type} {E : Externals W}.

Abbreviation V := (M (W * tracer)).

(** Modelled from the spec: calling a symbol under a trace context
    ([Symbol.__call__] of thunder.core.symbol, absent from this slice)
    records one bound operation, namely the operation identifier, its
    concrete arguments and keyword arguments and its symbolic output, and
    hands that output back to the caller. *)
Definition call_symbol (id : sym_id) (a : list pytree) (kw : gmap string value)
  : V pytree :=
  out ← lift (meta id a kw);
  t ← get_own;
  put_own {| emitted := emitted t;
             scope := scope t ++ [bsym_of id a kw out];
             grad_to_future := grad_to_future t |};;
  mret out.

(** [grad_to_future[grad]] *)
Definition get_future (grad : value) : V pytree :=
  t ← get_own;
  match proxy_name grad with
  | Some name =>
      match grad_to_future t !! name with
      | Some fut => mret fut
      | None => raise (KeyError name)
      end
  | None => raise (AttributeError "name")
  end.

(** [grad_to_future[grad] = future] *)
Definition set_future (grad : value) (future : pytree) : V unit :=
  t ← get_own;
  match proxy_name grad with
  | Some name =>
      put_own {| emitted := emitted t; scope := scope t;
                 grad_to_future := <[name := future]> (grad_to_future t) |}
  | None => raise (AttributeError "name")
  end.

(** One slot of the new return. *)
Definition wait_or_none (grad : value) : V pytree :=
  if is_TensorProxy grad
  then fut ← get_future grad; call_symbol WAIT [fut] ∅
  else mret (Leaf VNone).

(** Pre-average, then all-reduce asynchronously. *)
Definition allreduce_grad (world_size : value) (pg : ProcessGroup) (grad : value)
  : V unit :=
  preaveraged ← call_symbol TRUE_DIVIDE [Leaf grad; Leaf world_size] ∅;
  future ← call_symbol ALL_REDUCE [preaveraged] (all_reduce_kwargs pg);
  set_future grad future.

(** [AllReduceGradVisitor.__call__] *)
Definition visit (gradients : list value) (world_size : value) (pg : ProcessGroup)
    (bsym : BoundSymbol) : V VISIT_TYPE :=
  if bool_decide (sym bsym = RETURN) then
    rets ← mapM wait_or_none gradients;
    call_symbol RETURN rets ∅;;
    mret REPLACE
  else
    t ← get_own;
    let grads_of_bsym :=
      filter (λ v, is_tracked_grad (grad_to_future t) v = true) (_flat_outs bsym) in
    if bool_decide (length grads_of_bsym = 0%nat) then mret INSERT_AFTER
    else
      forM_ (allreduce_grad world_size pg) grads_of_bsym;;
      mret INSERT_AFTER.

(** Modelled from the spec: [visitor_transform] of thunder.core.transforms
    (absent from this slice), the single-pass trace-rewriting ("visitor")
    facility.  Each bound operation of the source trace is visited once,
    in order, with an empty recording scope; the outcome decides what
    the new trace receives: the recorded operations instead of the
    visited one (replace), the visited one followed by the recorded
    ones (insert-after), or the visited one alone (no-op). *)
Definition visit_one (visit : BoundSymbol → V VISIT_TYPE) (bsym : BoundSymbol)
  : V unit :=
  t ← get_own;
  put_own {| emitted := emitted t; scope := [];
             grad_to_future := grad_to_future t |};;
  visit_type ← visit bsym;
  t ← get_own;
  let new_bsyms :=
    match visit_type with
    | REPLACE => scope t
    | INSERT_AFTER => bsym :: scope t
    | NO_OP => [bsym]
    end in
  put_own {| emitted := emitted t ++ new_bsyms; scope := [];
             grad_to_future := grad_to_future t |}.

Definition visitor_transform (trace_from : TraceCtx)
    (visit : BoundSymbol → V VISIT_TYPE) : V TraceCtx :=
  forM_ (visit_one visit) (bound_symbols trace_from);;
  t ← get_own;
  mret (set_bound_symbols (from_trace trace_from) (emitted t)).

Definition insert_bsym_to_allreduce_grads (backward_trace : TraceCtx)
    (process_group : option ProcessGroup) : M W TraceCtx :=
  pg ← match process_group with
       | None => _get_default_group
       | Some pg => mret pg
       end;
  let world_size := VFloat (pg_size pg) in
  let gradients := tree_flatten (trace_output backward_trace) in
  run_own (visitor_transform backward_trace (visit gradients world_size pg))
          {| emitted := []; scope := [];
             grad_to_future := init_grad_to_future gradients |}.

End allreduce.

(** What the rewrite adds for one gradient: its division by the world
    size and, right after, the asynchronous all-reduce of the quotient
    over the group. *)
Definition communication (world_size : value) (pg : ProcessGroup) (grad : value)
    (preaveraged future : pytree) : list BoundSymbol :=
  [ bsym_of TRUE_DIVIDE [Leaf grad; Leaf world_size] ∅ preaveraged;
    bsym_of ALL_REDUCE [preaveraged] (all_reduce_kwargs pg) future ].

(** The same for several gradients in turn; [outs] gives, for each, the
    quotient and the future that tracing the two calls produced. *)
Definition communications (world_size : value) (pg : ProcessGroup)
    (grads : list value) (outs : list (pytree * pytree)) : list BoundSymbol :=
  concat (zip_with (λ grad (o : pytree * pytree),
                      communication world_size pg grad o.1 o.2) grads outs).

(** The outputs of an operation that are tensor gradients of the return:
    line 270, the table's keys being those of its initialisation. *)
Definition tracked_outputs (gradients : list value) (bsym : BoundSymbol) : list value :=
  filter (λ v, is_tracked_grad (init_grad_to_future gradients) v = true) (_flat_outs bsym).

(** The table after the futures of the communications [issued] have been
    stored in it, in order (line 277). *)
Definition record_futures (table : gmap string pytree)
    (issued : list (value * (pytree * pytree))) : gmap string pytree :=
  foldl (λ d (p : value * (pytree * pytree)),
           match proxy_name p.1 with
           | Some name => <[name := p.2.2]> d
           | None => d
           end) table issued.

(** The future of the last communication issued for the gradient called
    [name], the placeholder [True] when there is none. *)
Definition future_of (name : string) (issued : list (value * (pytree * pytree)))
  : pytree :=
  match last (filter (λ p : value * (pytree * pytree), proxy_name p.1 = Some name) issued) with
  | Some p => p.2.2
  | None => Leaf (VBool true)
  end.

(** The waits that precede the new return: one for each tensor gradient,
    in order, on its future; its result is the gradient's slot. *)
Definition waits_of (issued : list (value * (pytree * pytree)))
    (gradients : list value) (rets : list pytree) : list BoundSymbol :=
  flat_map (λ p : value * pytree,
              match p.1 with
              | VTensorProxy name _ => [bsym_of WAIT [future_of name issued] ∅ p.2]
              | _ => []
              end) (zip gradients rets).

(** The future of a communication is what tracing the all-reduce of its
    quotient gave. *)
Definition traced_future {W} {E : Externals W} (pg : ProcessGroup)
    (o : pytree * pytree) : Prop :=
  ∃ w1 w2, meta ALL_REDUCE [o.1] (all_reduce_kwargs pg) w1 = (Ok o.2, w2).

(** The rewrite, as a relation between the operations of the old trace
    and those of the new one; [issued] holds the communications issued by
    the operations already passed.  An operation other than a return
    stays and is followed directly by the communication of each of its
    tracked outputs; a return is replaced by the waits and a return with
    one slot per flattened gradient, [None] where the gradient is not a
    tensor. *)
Inductive rewritten (world_size : value) (pg : ProcessGroup) (gradients : list value)
  : list (value * (pytree * pytree)) → list BoundSymbol → list BoundSymbol → Prop :=
| rewritten_nil issued :
    rewritten world_size pg gradients issued [] []
| rewritten_operation issued bsym bsyms outs new :
    sym bsym ≠ RETURN →
    length outs = length (tracked_outputs gradients bsym) →
    rewritten world_size pg gradients
      (issued ++ zip (tracked_outputs gradients bsym) outs) bsyms new →
    rewritten world_size pg gradients issued (bsym :: bsyms)
      (bsym :: communications world_size pg (tracked_outputs gradients bsym) outs ++ new)
| rewritten_return issued bsym bsyms rets out new :
    sym bsym = RETURN →
    length rets = length gradients →
    (∀ (i : nat) (grad : value), gradients !! i = Some grad →
       is_TensorProxy grad = false → rets !! i = Some (Leaf VNone)) →
    rewritten world_size pg gradients issued bsyms new →
    rewritten world_size pg gradients issued (bsym :: bsyms)
      (waits_of issued gradients rets ++ bsym_of RETURN rets ∅ out :: new).

(** The tensor proxy named [name] is an output of one of [bsyms]. *)
Definition produced_by (bsyms : list BoundSymbol) (name : string) : Prop :=
  ∃ (bsym : BoundSymbol) (requires_grad : bool),
    bsym ∈ bsyms ∧ VTensorProxy name requires_grad ∈ _flat_outs bsym.

End torch_autograd.

(** ** A concrete compiler core, for running the bridge

    The world is the log of calls made to the compiler core.  The passes
    log their name and hand their input back; tracing and differentiation
    return fixed traces of a function of two tensors and an integer, the
    first tensor alone requiring a gradient.  A symbol called while
    tracing names a fresh proxy for its output; the wait accepts a future
    and nothing else. *)

Module sample.
Import torch_autograd.

Definition logged {A} (name : string) (a : A) : M (list string) A :=
  λ log, (Ok a, log ++ [name]).

Definition unpack_trivial (name : string) : BoundSymbol :=
  bsym_of UNPACK_TRIVIAL [] {[ "name" := VStr name ]} (Leaf (VProxy name)).

Definition unpack_sequence (src : string) (outs : list pytree) : BoundSymbol :=
  bsym_of UNPACK_SEQUENCE
    [Leaf (VProxy src); Leaf (VInt (Z.of_nat (length outs)))] ∅ (Node outs).

Definition a : value := VTorchTensor "a" true.
Definition b : value := VTorchTensor "b" false.
Definition call_args : pytree := Node [Node [Leaf a; Leaf b; Leaf (VInt 3)]; Node []].
Definition frozen_call_args : pytree :=
  Node [Node [Leaf (VTorchTensor "a" false); Leaf b; Leaf (VInt 3)]; Node []].

Definition t (name : string) : pytree := Leaf (VTensorProxy name false).

Definition primal : TraceCtx :=
  {| bound_symbols :=
       [ bsym_of (OTHER_SYM "mul") [t "a"; t "b"] ∅ (t "t0");
         bsym_of RETURN [t "t0"] ∅ (Leaf VNone) ];
     trace_args := Node [t "a"; t "b"; Leaf (VInt 3)];
     trace_output := t "t0" |}.

Definition fw : TraceCtx :=
  {| bound_symbols :=
       [ bsym_of (OTHER_SYM "mul") [t "a"; t "b"] ∅ (t "t0");
         bsym_of RETURN
           [Node [Node [t "t0"]; Node [t "a"; t "b"; Leaf (VInt 3)]];
            Node [Node [t "a"; t "b"]; Node []]] ∅ (Leaf VNone) ];
     trace_args := Node [t "a"; t "b"; Leaf (VInt 3)];
     trace_output :=
       Node [Node [Node [t "t0"]; Node [t "a"; t "b"; Leaf (VInt 3)]];
             Node [Node [t "a"; t "b"]; Node []]] |}.

Definition bw : TraceCtx :=
  {| bound_symbols :=
       [ unpack_trivial "saved_for_backward";
         unpack_trivial "cotangents";
         unpack_sequence "saved_for_backward" [Leaf (VProxy "C0"); Leaf (VProxy "C1")];
         unpack_sequence "cotangents" [t "g"];
         unpack_sequence "C0" [t "a"; t "b"];
         bsym_of (OTHER_SYM "mul") [t "g"; t "b"] ∅ (t "ga");
         bsym_of (OTHER_SYM "mul") [t "g"; t "a"] ∅ (t "gb");
         bsym_of RETURN [Node [t "ga"; t "gb"; Leaf VNone]] ∅ (Leaf VNone) ];
     trace_args := Node [Node [Node [t "a"; t "b"]; Node []]; Node [t "g"]];
     trace_output := Node [t "ga"; t "gb"; Leaf VNone] |}.

(** A backward trace returning two gradient tensors and the integer 3. *)
Definition bw_with_int : TraceCtx :=
  {| bound_symbols :=
       [ bsym_of (OTHER_SYM "mul") [t "g"; t "b"] ∅ (t "ga");
         bsym_of (OTHER_SYM "mul") [t "g"; t "a"] ∅ (t "gb");
         bsym_of RETURN [t "ga"; t "gb"; Leaf (VInt 3)] ∅ (Leaf VNone) ];
     trace_args := Node [t "g"; t "a"; t "b"];
     trace_output := Node [t "ga"; t "gb"; Leaf (VInt 3)] |}.

Definition fresh (prefix : string) (log : list string) : string :=
  prefix +:+ pretty (length log).

#[global] Instance externals : Externals (list string) := {|
  sig_bind := λ call, Ok call;
  make_trace := λ _ _, logged "trace" primal;
  sort_data_parallel_syncs := logged "sort_data_parallel_syncs";
  forward_and_backward_from_trace := λ _, logged "forward_and_backward_from_trace" (fw, bw);
  transform_for_execution := λ trace _, logged "transform_for_execution" trace;
  replace_redundant_inputs := λ _ bsyms, logged "replace_redundant_inputs" bsyms;
  from_bsym_swap_proxies := λ bsym _, logged "from_bsym_swap_proxies" bsym;
  rematerialize_forward_and_backward :=
    λ f b, logged "rematerialize_forward_and_backward" (f, b);
  sort_waits := logged "sort_waits";
  del_last_used := logged "del_last_used";
  from_trace := λ trace, set_bound_symbols trace [];
  _get_default_group := logged "_get_default_group" {| pg_name := "default"; pg_size := 2 |};
  meta := λ id a _ log,
    (match id, a with
     | TRUE_DIVIDE, _ => Ok (Leaf (VTensorProxy (fresh "t" log) false))
     | ALL_REDUCE, _ => Ok (Leaf (VFutureTensorProxy (fresh "f" log)))
     | WAIT, [Leaf (VFutureTensorProxy _)] =>
         Ok (Leaf (VTensorProxy (fresh "t" log) false))
     | WAIT, _ => Err TypeError
     | _, _ => Ok (Leaf VNone)
     end,
     log ++ ["meta"]);
|}.

Definition group4 : ProcessGroup := {| pg_name := "ddp"; pg_size := 4 |}.

Definition empty_stats : CompileStats :=
  {| primal_trace := None; forward_last_traces := []; backward_last_traces := [] |}.

Definition with_cudagraphs : gmap string cfg_value :=
  {[ "use_cudagraphs" := CBool true ]}.

Definition compile_data : CompileData :=
  {| use_cudagraphs := true; num_constant_args := 2 |}.

End sample.

(** ** How [stack_effect_detail] uses its arguments *)

Module stack_effect_use.

(** The names whose branch of the [elif] chain reads [jump]. *)
Definition jump_sensitive_opnames : gset string :=
  {[ "JUMP_IF_TRUE_OR_POP"; "JUMP_IF_FALSE_OR_POP"; "SETUP_FINALLY";
     "SETUP_ASYNC_WITH"; "FOR_ITER" ]}.

(** The names whose branch of the [elif] chain reads [oparg]. *)
Definition operand_sensitive_opnames : gset string :=
  {[ "ROT_N"; "BUILD_TUPLE"; "BUILD_LIST"; "BUILD_SET"; "BUILD_STRING";
     "BUILD_MAP"; "BUILD_CONST_KEY_MAP"; "RAISE_VARARGS"; "CALL_FUNCTION";
     "CALL_METHOD"; "CALL_FUNCTION_KW"; "CALL_FUNCTION_EX"; "MAKE_FUNCTION";
     "BUILD_SLICE"; "FORMAT_VALUE"; "UNPACK_SEQUENCE"; "UNPACK_EX" ]}.

End stack_effect_use.

(** ** thunder/executors/torch_autograd.py: [ThunderFunction] and the
    decorator's configuration *)

Module thunder_function.
Import torch_autograd.

(** [a | b] on dicts: an entry of [b] wins over one of [a]. *)
Definition dict_or {V} (a b : gmap string V) : gmap string V := b ∪ a.

(** Line 182: the configuration the decorator compiles with. *)
Definition forced_compile_config (compile_config : gmap string cfg_value)
  : gmap string cfg_value :=
  dict_or (dict_or compile_config {[ "disable_preprocessing" := CBool true ]})
          {[ "disable_torch_autograd_support" := CBool true ]}.

Section ctx.
Context {W : Type}.

(** A compiled backward is called with the saved bundle and the tuple of
    output gradients. *)
Definition backward_callable : Type := pytree → pytree → M W pytree.

(** The autograd context: the two attributes [forward] sets, absent until
    then, and the tensors registered with [save_for_backward], which
    [ctx.saved_tensors] hands back as a tuple. *)
Record FunctionCtx : Type := {
  ctx_saved_other : option pytree;
  ctx_compiled_backward : option backward_callable;
  ctx_saved_tensors : list pytree;
}.

(** [ThunderFunction.forward]; the state is the context it writes to. *)
Definition forward (compiled_backward : backward_callable)
    (saved_tensors saved_other flat_output : pytree) (flat_args : list pytree)
  : M FunctionCtx pytree := λ ctx,
  let ctx := {| ctx_saved_other := Some saved_other;
                ctx_compiled_backward := Some compiled_backward;
                ctx_saved_tensors := ctx_saved_tensors ctx |} in
  match tree_iter saved_tensors with
  | Ok tensors =>
      (Ok flat_output,
       {| ctx_saved_other := ctx_saved_other ctx;
          ctx_compiled_backward := ctx_compiled_backward ctx;
          ctx_saved_tensors := tensors |})
  | Err e => (Err e, ctx)
  end.

(** [ThunderFunction.backward] *)
Definition backward (ctx : FunctionCtx) (args : list pytree) : M W pytree :=
  match ctx_compiled_backward ctx with
  | None => raise (AttributeError "compiled_backward")
  | Some compiled_backward =>
      match ctx_saved_other ctx with
      | None => raise (AttributeError "saved_other")
      | Some saved_other =>
          grads ← compiled_backward
                    (Node [Node (ctx_saved_tensors ctx); saved_other])
                    (Node args);
          grads ← of_result (tree_iter grads);
          mret (Node ([Leaf VNone; Leaf VNone; Leaf VNone; Leaf VNone] ++ grads))
      end
  end.

End ctx.

Arguments FunctionCtx : clear implicits.
Arguments backward_callable : clear implicits.

End thunder_function.

(** More of the concrete compiler core. *)
Module sample_more.
Import torch_autograd.


End sample_more.

(** ** benchmarks/nanogpt_training_bench.py: the script as a whole

    The script is a sequence of calls into torch, thunder and the
    operating system.  The calls are events appended to a log, in the
    order the script makes them; calls made in a row with nothing decided
    between them (seeding, building the model) are one event.  What the
    script itself decides (which call, how often, in which order, with
    which name or path) is computed.  Loss values and timings are not
    modelled, and a call that the script makes is assumed to return. *)

Module bench_run.
Import bench.

(** The flags of the command line that [bench.harness] does not hold, and
    [int(os.environ["LOCAL_RANK"])], read in a distributed run only. *)
Record flags : Type := {
  compile_mode : string;
  print_loss : bool;
  profile : bool;
  nsys_profile : bool;
  dump_extrace : bool;
  skip_torch_compile : bool;
  local_rank_env : Z;
}.

(** The lines the script prints, without their numbers. *)
Inductive line : Type :=
| Banner
| CompilingTorch
| CompilingThunder
| StepLoss (k num_steps : nat)
| TimePerIteration (rank : option Z)
| IterationLoss (i : nat)
| AllReduceOccurrences
| ProfileTable.

Inductive event : Type :=
| InitProcessGroup
| Print (l : line)
| SeedAndFlags
| MakeBatch
| BuildModel
| WrapDdpThunder
| WrapDdpTorch
| MakeOptimizer
| CompileTorch
| CompileThunder
| MakeDirs (dir : string)
| Synchronize
| ReadClock
| EnterContext (trace_dir : option string)
| ExitContext
| RangePush (name : string)
| RangePop
| ProfilerStart
| ProfilerStop
| GetBatch
| Forward
| Backward
| OptimizerStep
| ZeroGrad
| LossItem
| AllReduceLoss (i : nat)
| KeyAverages
| LastTraces
| WriteFile (path : string).

(** What the loop carries from one step to the next: the buffered losses
    (as the stage and step that produced them), the marker switch and the
    context manager ([None] is [nullcontext()], [Some dir] the profiler
    writing under [dir]). *)
Record loop_state : Type := {
  losses : list (nat * nat);
  put_nvtx_markers : bool;
  context : option string;
}.

Definition initial : loop_state :=
  {| losses := []; put_nvtx_markers := false; context := None |}.

Abbreviation B := (M (list event * loop_state)).

Definition emit (e : event) : B unit := lift (λ log, (Ok (), log ++ [e])).

Definition when (b : bool) (m : B unit) : B unit := if b then m else mret ().

Section script.
Context {float : Type}.
(** What the interpreter and the libraries decide: [str] and [<= 0] on the
    float, [os.path.join], [os.path.exists], what
    [torch.distributed.get_rank()] does without a process group, and how
    many profiled operations have "all_reduce" in their name. *)
Context (str_of_float : float → string) (le_zero : float → bool)
        (path_join : string → string → string) (path_exists : string → bool)
        (get_rank_uninitialized : result Z) (allreduce_elements : nat).
Context (h : harness float) (f : flags).

(** [local_rank]: [None] unless the run is distributed. *)
Definition local_rank : option Z :=
  if use_ddp h then Some (local_rank_env f) else None.

(** [os.path.join(dir_for_outputs, name)] *)
Definition in_output_dir (name : string) : result string :=
  match dir_for_outputs str_of_float h with
  | Some dir => Ok (path_join dir name)
  | None => Err TypeError
  end.

(** Lines 72-127. *)
Definition startup : B unit :=
  when (dump_extrace f) (py_assert (bool_decide (compile_mode f = "thunder")));;
  when (use_ddp h)
    (emit InitProcessGroup;;
     when (bool_decide (local_rank = Some 0)) (emit (Print Banner)));;
  when (skip_torch_compile f) (py_assert (use_ddp h));;
  emit SeedAndFlags;;
  emit MakeBatch;;
  emit BuildModel;;
  when (use_ddp h)
    (if bool_decide (compile_mode f = "thunder")
     then emit WrapDdpThunder else emit WrapDdpTorch);;
  emit MakeOptimizer.

(** Lines 129-137. *)
Definition compile_model : B unit :=
  if bool_decide (compile_mode f = "torch") then
    when (negb (skip_torch_compile f || le_zero (bucket_size_in_mb h)))
      (emit (Print CompilingTorch);; emit CompileTorch)
  else if bool_decide (compile_mode f = "thunder") then
    emit (Print CompilingThunder);; emit CompileThunder
  else raise (ValueError ("Unknown compile_mode: " +:+ compile_mode f)).

(** Lines 149-150. *)
Definition make_output_dir : B unit :=
  when (save_files h)
    (match dir_for_outputs str_of_float h with
     | Some dir => when (negb (path_exists dir)) (emit (MakeDirs dir))
     | None => raise TypeError
     end).

Definition marker (e : event) : B unit :=
  st ← get_own; when (put_nvtx_markers st) (emit e).

(** Lines 174-210: one iteration. *)
Definition step (stage num_steps k : nat) : B unit :=
  marker (RangePush ("iter_" +:+ pretty k));;
  emit GetBatch;;
  marker (RangePush "forward");; emit Forward;; marker RangePop;;
  marker (RangePush "backward");; emit Backward;; marker RangePop;;
  marker (RangePush "optimizer.step");; emit OptimizerStep;; marker RangePop;;
  marker (RangePush "optimizer.zero_grad");; emit ZeroGrad;; marker RangePop;;
  (if print_loss f then emit LossItem;; emit (Print (StepLoss k num_steps))
   else when (bool_decide (stage = 1%nat))
          (st ← get_own;
           put_own {| losses := losses st ++ [(stage, k)];
                      put_nvtx_markers := put_nvtx_markers st;
                      context := context st |}));;
  marker RangePop.

(** Lines 157-169: what entering the measured stage arms. *)
Definition arm_measured_stage : B unit :=
  when (profile f)
    (rank ← of_result (match dist_rank h with
                       | Some r => Ok r
                       | None => get_rank_uninitialized
                       end);
     dir ← of_result (in_output_dir ("rank_" +:+ pretty rank));
     st ← get_own;
     put_own {| losses := losses st; put_nvtx_markers := put_nvtx_markers st;
                context := Some dir |});;
  when (nsys_profile f)
    (st ← get_own;
     put_own {| losses := losses st; put_nvtx_markers := true;
                context := context st |};;
     emit ProfilerStart).

(** Lines 156-218: one stage. *)
Definition run_stage (stage num_steps : nat) : B unit :=
  when (bool_decide (stage = 1%nat)) arm_measured_stage;;
  emit Synchronize;;
  emit ReadClock;;
  st ← get_own;
  emit (EnterContext (context st));;
  forM_ (step stage num_steps) (seq 0 num_steps);;
  emit ExitContext;;
  emit Synchronize;;
  emit ReadClock;;
  when (bool_decide (stage = 1%nat)) (emit (Print (TimePerIteration local_rank))).

(** [for stage, num_steps in enumerate([10, 20])] *)
Definition timed_loop : B unit :=
  forM_ (λ p : nat * nat, run_stage p.1 p.2) [(0%nat, 10%nat); (1%nat, 20%nat)].

(** Lines 221-227: one buffered loss. *)
Definition report_loss (i : nat) : B unit :=
  when (use_ddp h) (emit (AllReduceLoss i));;
  when (bool_decide (local_rank = None ∨ local_rank = Some 0))
    (emit LossItem;; emit (Print (IterationLoss i))).

(** Lines 219-242. *)
Definition report : B unit :=
  when (nsys_profile f) (emit ProfilerStop);;
  st ← get_own;
  forM_ report_loss (seq 0 (length (losses st)));;
  when (profile f)
    (when (bool_decide (local_rank = Some 0))
       (emit KeyAverages;;
        forM_ (λ _ : nat, emit (Print AllReduceOccurrences)) (seq 0 allreduce_elements);;
        emit KeyAverages;;
        emit (Print ProfileTable)));;
  when (dump_extrace f && save_files h)
    (emit LastTraces;;
     fwd ← of_result (in_output_dir "fwd_trace.py");
     emit (WriteFile fwd);;
     bwd ← of_result (in_output_dir "bwd_trace.py");
     emit (WriteFile bwd)).

Definition main : B unit :=
  startup;; compile_model;; make_output_dir;; timed_loop;; report.

End script.

(** Reading a log: the calls that are counted, by kind; the other calls
    have none. *)
Inductive kind : Type :=
| ForwardPass
| BackwardPass
| OptimizerUpdate
| TimeLine
| Range
| StepLossLine
| IterationLossLine
| LossAllReduce
| TorchCompile
| ThunderCompile.

#[global] Instance kind_eq_dec : EqDecision kind.
Proof. solve_decision. Defined.

Definition kind_of (e : event) : option kind :=
  match e with
  | Forward => Some ForwardPass
  | Backward => Some BackwardPass
  | OptimizerStep => Some OptimizerUpdate
  | Print (TimePerIteration _) => Some TimeLine
  | RangePush _ | RangePop => Some Range
  | Print (StepLoss _ _) => Some StepLossLine
  | Print (IterationLoss _) => Some IterationLossLine
  | AllReduceLoss _ => Some LossAllReduce
  | CompileTorch => Some TorchCompile
  | CompileThunder => Some ThunderCompile
  | _ => None
  end.

Definition count (c : kind) (log : list event) : nat :=
  length (filter (λ e, kind_of e = Some c) log).

Definition written_files (log : list event) : list string :=
  omap (λ e, match e with WriteFile path => Some path | _ => None end) log.

(** The nesting depth of instrumentation ranges after a log, starting
    from [depth]; [None] when a range is popped that was never pushed. *)
Fixpoint range_depth (log : list event) (depth : nat) : option nat :=
  match log with
  | [] => Some depth
  | RangePush _ :: log' => range_depth log' (S depth)
  | RangePop :: log' =>
      match depth with
      | O => None
      | S d => range_depth log' d
      end
  | _ :: log' => range_depth log' depth
  end.

(** A computation that, from the own state [st], ends with [r] in the own
    state [st'] after appending [new] to whatever was logged before. *)
Definition adds {A} (m : B A) (st : loop_state) (r : result A)
    (new : list event) (st' : loop_state) : Prop :=
  ∀ log, m (log, st) = (r, (log ++ new, st')).

(** A stretch of log that counts [n c] calls of each kind [c], closes
    every range it opens and writes the files [fs]. *)
Definition logs (new : list event) (n : kind → nat) (fs : list string) : Prop :=
  (∀ c, count c new = n c) ∧ (∀ d, range_depth new d = Some d) ∧
  written_files new = fs.

End bench_run.

(** Concrete runs of the script.  A float is given by its text; the runs
    below use the bucket sizes 25.0 and 0.0 only. *)
Module sample_run.
Import bench bench_run.

Definition single : harness string :=
  {| model := "gpt2"; dtype := "float32"; seq_len := 128;
     bucket_size_in_mb := "25.0"; delay_allreduce := false; dist_rank := None |}.

Definition rank1 : harness string :=
  {| model := "gpt2"; dtype := "float32"; seq_len := 128;
     bucket_size_in_mb := "25.0"; delay_allreduce := false; dist_rank := Some 1 |}.

Definition traced : flags :=
  {| compile_mode := "thunder"; print_loss := false; profile := false;
     nsys_profile := true; dump_extrace := true; skip_torch_compile := false;
     local_rank_env := 0 |}.

Definition profiled : flags :=
  {| compile_mode := "thunder"; print_loss := false; profile := true;
     nsys_profile := false; dump_extrace := false; skip_torch_compile := false;
     local_rank_env := 1 |}.

Definition skipping : flags :=
  {| compile_mode := "torch"; print_loss := false; profile := false;
     nsys_profile := false; dump_extrace := false; skip_torch_compile := true;
     local_rank_env := 0 |}.

Definition run (h : harness string) (f : flags)
  : result unit * (list event * loop_state) :=
  main id (λ text, bool_decide (text = "0.0"))
    (λ dir name, dir +:+ "/" +:+ name) (λ _, false)
    (Err (RuntimeError "Default process group has not been initialized")) 2
    h f ([], initial).

End sample_run.

(** * Properties *)

(** ** Stack effects *)

Section stack_effect_facts.
Import python_ir_data.

Lemma dict_of_items_lookup_acc {V} (items : list (string * V)) (d : gmap string V) k v :
  foldl (λ d kv, <[kv.1 := kv.2]> d) d items !! k = Some v →
  (k, v) ∈ items ∨ d !! k = Some v.
Proof.
  revert d. induction items as [|[k' v'] items IH]; intros d Hl; simpl in *.
  - by right.
  - apply IH in Hl as [Hin | Hl].
    + left. by apply list_elem_of_further.
    + destruct (decide (k' = k)) as [-> | Hne].
      * rewrite lookup_insert_eq in Hl. injection Hl as ->. left. apply list_elem_of_here.
      * rewrite lookup_insert_ne in Hl by done. by right.
Qed.

Lemma dict_of_items_lookup {V} (items : list (string * V)) k v :
  dict_of_items items !! k = Some v → (k, v) ∈ items.
Proof.
  intros Hl. apply dict_of_items_lookup_acc in Hl as [? | Hl]; [done |].
  by rewrite lookup_empty in Hl.
Qed.

(** Masking with a single bit leaves that bit or nothing. *)
Lemma land_pow2 a k :
  0 ≤ k → Z.land a (2 ^ k) = if Z.testbit a k then 2 ^ k else 0.
Proof.
  intros Hk. apply Z.bits_inj'. intros n Hn.
  rewrite Z.land_spec, Z.pow2_bits_eqb by done.
  destruct (Z.eqb_spec k n) as [-> | Hne].
  - destruct (Z.testbit a n) eqn:E; simpl.
    + by rewrite Z.pow2_bits_true.
    + by rewrite Z.bits_0.
  - rewrite andb_false_r. destruct (Z.testbit a k).
    + by rewrite Z.pow2_bits_false.
    + by rewrite Z.bits_0.
Qed.

Lemma nonzero_land_pow2 a k :
  0 ≤ k → nonzero (Z.land a (2 ^ k)) = bit k a.
Proof.
  intros Hk. unfold nonzero, bit. rewrite land_pow2 by done.
  destruct (Z.testbit a k); simpl.
  - assert (0 < 2 ^ k) by (apply Z.pow_pos_nonneg; lia).
    destruct (Z.eqb_spec (2 ^ k) 0); [lia | done].
  - done.
Qed.

Lemma bit0_land a : bit 0 a = nonzero (Z.land a 1).
Proof. by rewrite <- (nonzero_land_pow2 a 0). Qed.
Lemma bit1_land a : bit 1 a = nonzero (Z.land a 2).
Proof. by rewrite <- (nonzero_land_pow2 a 1). Qed.
Lemma bit2_land a : bit 2 a = nonzero (Z.land a 4).
Proof. by rewrite <- (nonzero_land_pow2 a 2). Qed.
Lemma bit3_land a : bit 3 a = nonzero (Z.land a 8).
Proof. by rewrite <- (nonzero_land_pow2 a 3). Qed.

Lemma testbit2_land a : Z.testbit a 2 = negb (Z.land a 4 =? 0).
Proof.
  change 4 with (2 ^ 2). rewrite land_pow2 by done.
  by destruct (Z.testbit a 2).
Qed.

Lemma nonzero_nonneg x : 0 ≤ nonzero x.
Proof. unfold nonzero. destruct (negb _); simpl; lia. Qed.

Lemma fixed_effects_nonneg :
  map_Forall (λ _ effect, 0 ≤ effect.1 ∧ 0 ≤ effect.2) fixed_stack_effects_detail.
Proof.
  intros opname effect Hl. apply dict_of_items_lookup in Hl.
  assert (Forall (λ kv : string * (Z * Z), 0 ≤ kv.2.1 ∧ 0 ≤ kv.2.2)
            fixed_stack_effects_items) as Hall.
  { unfold fixed_stack_effects_items. repeat constructor; simpl; lia. }
  rewrite Forall_forall in Hall. apply (Hall _ Hl).
Qed.

Lemma computed_opnames_are_spec_rows : dom spec_rules = computed_opnames.
Proof. apply (bool_decide_unpack _). vm_compute. exact I. Qed.

(** C6: an instruction of the fixed table has its table entry as stack
    effect whatever the operand and the jump flag, so two calls with
    different operands and flags agree; POP_TOP always gives (1, 0). *)
Theorem fixed_effect_independent_of_operand
    (opname : string) (effect : Z * Z) (oparg1 oparg2 : Z) (jump1 jump2 : bool) :
  fixed_stack_effects_detail !! opname = Some effect →
  stack_effect_detail opname oparg1 jump1 = Ok effect
  ∧ stack_effect_detail opname oparg2 jump2 = Ok effect
  ∧ stack_effect_detail "POP_TOP" oparg1 jump1 = Ok (1, 0).
Proof.
  intros Hl. unfold stack_effect_detail. rewrite Hl. repeat split.
Qed.

Lemma fixed_effect_independent_of_operand_witness :
  fixed_stack_effects_detail !! "MATCH_KEYS" = Some (2, 4)
  ∧ stack_effect_detail "MATCH_KEYS" 0 false = Ok (2, 4)
  ∧ stack_effect_detail "MATCH_KEYS" 77 true = Ok (2, 4).
Proof.
  split; [reflexivity |].
  pose proof (fixed_effect_independent_of_operand
                "MATCH_KEYS" (2, 4) 0 77 false true eq_refl) as (H1 & H2 & _).
  exact (conj H1 H2).
Defined.

Lemma computed_stack_effect_unknown (opname : string) (oparg : Z) (jump : bool) :
  opname ∉ computed_opnames →
  computed_stack_effect opname oparg jump
    = Err (ValueError ("Invalid opname " +:+ opname)).
Proof.
  intros Hrules. unfold computed_opnames in Hrules.
  rewrite !not_elem_of_union, !not_elem_of_singleton in Hrules.
  destruct_and!. unfold computed_stack_effect.
  repeat case_bool_decide; try reflexivity; exfalso; try congruence.
  all: rewrite !elem_of_union, !elem_of_singleton in *; intuition congruence.
Qed.

Lemma computed_stack_effect_nonneg (opname : string) (oparg : Z) (jump : bool) pop push :
  0 ≤ oparg →
  computed_stack_effect opname oparg jump = Ok (pop, push) →
  0 ≤ pop ∧ 0 ≤ push.
Proof.
  intros Hoparg.
  pose proof (nonzero_nonneg (Z.land oparg 1)).
  pose proof (nonzero_nonneg (Z.land oparg 2)).
  pose proof (nonzero_nonneg (Z.land oparg 4)).
  pose proof (nonzero_nonneg (Z.land oparg 8)).
  assert (0 ≤ Z.land oparg 255) by (apply Z.land_nonneg; lia).
  assert (0 ≤ Z.shiftr oparg 8) by (by apply Z.shiftr_nonneg).
  unfold computed_stack_effect.
  repeat case_bool_decide; try destruct jump;
    try destruct (negb (Z.land oparg 4 =? 0));
    intros [= <- <-]; lia.
Qed.

(** C8: a name that is neither a key of the fixed table nor one of the
    names of the operand-dependent rules makes [stack_effect_detail]
    raise the invalid-opname [ValueError]; no pair is returned. *)
Theorem unknown_opname_raises (opname : string) (oparg : Z) (jump : bool) :
  fixed_stack_effects_detail !! opname = None →
  opname ∉ computed_opnames →
  stack_effect_detail opname oparg jump
    = Err (ValueError ("Invalid opname " +:+ opname))
  ∧ ∀ effect, stack_effect_detail opname oparg jump ≠ Ok effect.
Proof.
  intros Hfixed Hrules. unfold stack_effect_detail. rewrite Hfixed.
  rewrite computed_stack_effect_unknown by done.
  split; [reflexivity | discriminate].
Qed.

Lemma unknown_opname_raises_witness :
  stack_effect_detail "SETUP_WITH" 3 true
    = Err (ValueError "Invalid opname SETUP_WITH").
Proof.
  refine (proj1 (unknown_opname_raises "SETUP_WITH" 3 true eq_refl _)).
  apply (bool_decide_eq_false_1 _). vm_compute. reflexivity.
Defined.

(** C10: whenever [stack_effect_detail] returns a pair for a
    non-negative operand, with either value of the jump flag, both the
    pop count and the push count are non-negative. *)
Theorem stack_effect_nonneg
    (opname : string) (oparg : Z) (jump : bool) (pop push : Z) :
  0 ≤ oparg →
  stack_effect_detail opname oparg jump = Ok (pop, push) →
  0 ≤ pop ∧ 0 ≤ push.
Proof.
  intros Hoparg. unfold stack_effect_detail.
  destruct (fixed_stack_effects_detail !! opname) as [effect|] eqn:Hfixed.
  - intros [= ->]. apply (fixed_effects_nonneg _ _ Hfixed).
  - by apply computed_stack_effect_nonneg.
Qed.

Lemma stack_effect_nonneg_witness :
  stack_effect_detail "UNPACK_EX" 515 false = Ok (1, 6) ∧ 0 ≤ 1 ∧ 0 ≤ 6.
Proof.
  split; [reflexivity |].
  apply (stack_effect_nonneg "UNPACK_EX" 515 false 1 6); [lia | reflexivity].
Defined.

(** Every row of the specification's rule table agrees with the code. *)
Lemma spec_rows_sound :
  Forall (λ row : string * rule, ∀ oparg jump,
            fixed_stack_effects_detail !! row.1 = None
            ∧ stack_effect_detail row.1 oparg jump = Ok (row.2 oparg jump))
         spec_rule_rows.
Proof.
  unfold spec_rule_rows.
  repeat (apply Forall_cons; split;
          [ intros oparg jump; cbn [fst snd]; split; [reflexivity |];
            rewrite ?bit0_land, ?bit1_land, ?bit2_land, ?bit3_land, ?testbit2_land;
            destruct jump;
            first [ reflexivity
                  | transitivity
                      (Ok (A := Z * Z)
                         (2 + nonzero (Z.land oparg 1) + nonzero (Z.land oparg 2)
                          + nonzero (Z.land oparg 4) + nonzero (Z.land oparg 8), 1));
                    [reflexivity | do 2 f_equal; lia]
                  | transitivity
                      (if negb (Z.land oparg 4 =? 0)
                       then Ok (A := Z * Z) (2, 1) else Ok (1, 1));
                    [reflexivity | by destruct (negb _)] ] | ]).
  apply Forall_nil_2.
Qed.

(** C5: for every instruction listed in the specification's table of
    operand-dependent rules, the name is not a key of the fixed table and
    [stack_effect_detail] returns exactly the row's (pop, push) pair for
    the given operand and branch flag; in particular the five sample
    evaluations of the specification hold. *)
Theorem computed_effect_matches_rule_table :
  (∀ (opname : string) (r : rule) (oparg : Z) (jump : bool),
      spec_rules !! opname = Some r →
      fixed_stack_effects_detail !! opname = None
      ∧ stack_effect_detail opname oparg jump = Ok (r oparg jump))
  ∧ stack_effect_detail "BUILD_TUPLE" 5 false = Ok (5, 1)
  ∧ stack_effect_detail "BUILD_MAP" 3 false = Ok (6, 1)
  ∧ stack_effect_detail "BUILD_CONST_KEY_MAP" 4 false = Ok (5, 1)
  ∧ stack_effect_detail "UNPACK_EX" (Z.lor (Z.shiftl 2 8) 3) false = Ok (1, 6)
  ∧ stack_effect_detail "FOR_ITER" 0 true = Ok (1, 0)
  ∧ stack_effect_detail "FOR_ITER" 0 false = Ok (1, 2).
Proof.
  split; [| repeat split].
  intros opname r oparg jump Hrow. apply dict_of_items_lookup in Hrow.
  by apply (proj1 (Forall_forall _ _) spec_rows_sound (opname, r)).
Qed.

Lemma computed_effect_matches_rule_table_witness :
  spec_rules !! "MAKE_FUNCTION"
    = Some (λ operand _,
              (2 + (bit 0 operand + bit 1 operand + bit 2 operand + bit 3 operand), 1))
  ∧ stack_effect_detail "MAKE_FUNCTION" 15 false = Ok (6, 1).
Proof.
  split; [reflexivity |].
  exact (proj2 (proj1 computed_effect_matches_rule_table
                  "MAKE_FUNCTION" _ 15 false eq_refl)).
Defined.

Lemma jump_instructions_are_opcodes (hasjabs hasjrel : list Z) (a : pyatom) :
  a ∈ jump_instructions hasjabs hasjrel → ∃ n : Z, a = AInt n.
Proof.
  unfold jump_instructions.
  rewrite elem_of_union, !elem_of_list_to_set, !list_elem_of_fmap.
  intros [(n & -> & _) | (n & -> & _)]; by exists n.
Qed.

Lemma unconditional_jump_names_are_names (a : pyatom) :
  a ∈ unconditional_jump_names → ∃ s : string, a = AStr s.
Proof.
  unfold unconditional_jump_names.
  rewrite !elem_of_union, !elem_of_singleton.
  intros [[[-> | ->] | ->] | ->]; eauto.
Qed.

(** C4 as stated does not hold: [jump_instructions] is built from the
    opcode numbers of [dis.hasjabs] and [dis.hasjrel], and the name
    JUMP_ABSOLUTE is not one of its members. *)
Lemma unconditional_jump_names_not_subset :
  ¬ (size unconditional_jump_names = 4%nat
     ∧ ∀ a, a ∈ unconditional_jump_names →
            a ∈ jump_instructions hasjabs_310 hasjrel_310).
Proof.
  intros [_ Hsub].
  assert (AStr "JUMP_ABSOLUTE" ∈ unconditional_jump_names) as Hin
    by (apply (bool_decide_unpack _); vm_compute; exact I).
  apply Hsub, jump_instructions_are_opcodes in Hin as [n Hn]. discriminate.
Qed.

(** C4, amended: [unconditional_jump_names] has exactly four members, and
    it shares no member with [jump_instructions], whose members are the
    opcode numbers listed by [dis.hasjabs] and [dis.hasjrel]. *)
Theorem unconditional_jump_names_size_and_disjoint :
  size unconditional_jump_names = 4%nat
  ∧ ∀ hasjabs hasjrel : list Z,
      unconditional_jump_names ∩ jump_instructions hasjabs hasjrel = ∅.
Proof.
  split; [by vm_compute |].
  intros hasjabs hasjrel. apply set_eq. intros a.
  rewrite elem_of_intersection, elem_of_empty. split; [| done].
  intros [[s ->]%unconditional_jump_names_are_names
          [n [=]]%jump_instructions_are_opcodes].
Qed.

End stack_effect_facts.

(** ** Benchmark output directory *)

Section bench_facts.
Import bench.
Context {float : Type} (str_of_float : float → string).

Lemma string_app_assoc (a b c : string) : (a +:+ b) +:+ c = a +:+ (b +:+ c).
Proof.
  induction a as [|x a IH]; [done |].
  change (String x ((a +:+ b) +:+ c) = String x (a +:+ (b +:+ c))).
  by rewrite IH.
Qed.

Lemma string_app_empty_r (a : string) : a +:+ "" = a.
Proof.
  induction a as [|x a IH]; [done |].
  change (String x (a +:+ "") = String x a). by rewrite IH.
Qed.

(** C9 as stated does not hold for every configuration: on rank 1 of a
    distributed run no directory name is computed at all. *)
Lemma dir_for_outputs_absent_on_other_ranks :
  ¬ (∀ h : harness string,
       dir_for_outputs id h
       = Some ("./thunder_traces/" +:+ model h +:+ "_" +:+ dtype h +:+ "_seq-"
               +:+ pretty (seq_len h)
               +:+ (if use_ddp h
                    then "_ddp_bucket_size-" +:+ bucket_size_in_mb h else "")
               +:+ (if use_ddp h && delay_allreduce h
                    then "_delayed_allreduce" else ""))).
Proof.
  intros Hall.
  specialize (Hall {| model := "gpt2"; dtype := "float16"; seq_len := 64;
                      bucket_size_in_mb := "25.0"; delay_allreduce := true;
                      dist_rank := Some 1 |}).
  discriminate Hall.
Qed.

(** C9, amended: in a process that saves files (a single-process run, or
    rank 0 of a distributed run) the directory name is
    "./thunder_traces/<model>_<dtype>_seq-<seqlen>", followed by
    "_ddp_bucket_size-<bucket>" exactly when the run is distributed, and
    then by "_delayed_allreduce" exactly when the run is distributed and
    the delay-allreduce flag is set; a process that does not save files
    has no directory name.  The two sample configurations give the two
    sample names. *)
Theorem dir_for_outputs_name (h : harness float) :
  let base := "./thunder_traces/" +:+ model h +:+ "_" +:+ dtype h +:+ "_seq-"
              +:+ pretty (seq_len h) in
  let bucket := "_ddp_bucket_size-" +:+ str_of_float (bucket_size_in_mb h) in
  (save_files h = true →
     (use_ddp h = false → dir_for_outputs str_of_float h = Some base)
     ∧ (use_ddp h = true → delay_allreduce h = false →
          dir_for_outputs str_of_float h = Some (base +:+ bucket))
     ∧ (use_ddp h = true → delay_allreduce h = true →
          dir_for_outputs str_of_float h
          = Some (base +:+ bucket +:+ "_delayed_allreduce")))
  ∧ (save_files h = false → dir_for_outputs str_of_float h = None)
  ∧ (model h = "gpt2" → dtype h = "float16" → seq_len h = 64 →
     dist_rank h = None →
     dir_for_outputs str_of_float h
     = Some "./thunder_traces/gpt2_float16_seq-64")
  ∧ (model h = "gpt2" → dtype h = "float16" → seq_len h = 64 →
     dist_rank h = Some 0 → str_of_float (bucket_size_in_mb h) = "25.0" →
     delay_allreduce h = true →
     dir_for_outputs str_of_float h
     = Some "./thunder_traces/gpt2_float16_seq-64_ddp_bucket_size-25.0_delayed_allreduce").
Proof.
  intros base bucket. subst base bucket. unfold dir_for_outputs.
  split; [| split; [| split]].
  - intros ->. split; [| split].
    + intros ->. simpl. by rewrite ?string_app_assoc, ?string_app_empty_r.
    + intros -> ->. simpl. by rewrite ?string_app_assoc, ?string_app_empty_r.
    + intros -> ->. simpl. by rewrite ?string_app_assoc.
  - by intros ->.
  - intros Hm Hd Hs Hr. unfold save_files, use_ddp.
    rewrite Hm, Hd, Hs, Hr. reflexivity.
  - intros Hm Hd Hs Hr Hb Hdelay. unfold save_files, is_initialized, use_ddp.
    rewrite Hm, Hd, Hs, Hr, Hb, Hdelay. reflexivity.
Qed.

End bench_facts.

Lemma dir_for_outputs_name_witness :
  bench.dir_for_outputs id
    {| bench.model := "gpt2-xl"; bench.dtype := "bfloat16"; bench.seq_len := 128;
       bench.bucket_size_in_mb := "12.5"; bench.delay_allreduce := false;
       bench.dist_rank := Some 0 |}
  = Some "./thunder_traces/gpt2-xl_bfloat16_seq-128_ddp_bucket_size-12.5".
Proof.
  exact (proj1 (proj2 (proj1 (dir_for_outputs_name id
    {| bench.model := "gpt2-xl"; bench.dtype := "bfloat16"; bench.seq_len := 128;
       bench.bucket_size_in_mb := "12.5"; bench.delay_allreduce := false;
       bench.dist_rank := Some 0 |}) eq_refl)) eq_refl eq_refl).
Defined.

(** ** The monad *)

Section monad_facts.
Context {S : Type}.

Lemma bind_ok {A B} (m : M S A) (k : A → M S B) s b s2 :
  (m ≫= k) s = (Ok b, s2) → ∃ a s1, m s = (Ok a, s1) ∧ k a s1 = (Ok b, s2).
Proof.
  unfold mbind, M_bind. destruct (m s) as [[a|e] s1]; [eauto | discriminate].
Qed.

Lemma bind_run {A B} (m : M S A) (k : A → M S B) s a s1 :
  m s = (Ok a, s1) → (m ≫= k) s = k a s1.
Proof. unfold mbind, M_bind. by intros ->. Qed.

Lemma bind_err {A B} (m : M S A) (k : A → M S B) s e s1 :
  m s = (Err e, s1) → (m ≫= k) s = (Err e, s1).
Proof. unfold mbind, M_bind. by intros ->. Qed.

Lemma of_result_ok {A} (r : result A) (s s' : S) a :
  of_result r s = (Ok a, s') → r = Ok a ∧ s' = s.
Proof. unfold of_result. by intros [= -> ->]. Qed.

Lemma mret_ok {A} (a b : A) (s s' : S) :
  mret (M := M S) a s = (Ok b, s') → b = a ∧ s' = s.
Proof. unfold mret, M_ret. by intros [= -> ->]. Qed.
End monad_facts.

(** Computations that leave the own part of the state alone. *)
Section own_state.
Context {W X : Type}.

Lemma keeps_own_bind {A B} (m : M (W * X) A) (k : A → M (W * X) B) :
  keeps_own m → (∀ a, keeps_own (k a)) → keeps_own (m ≫= k).
Proof.
  intros Hm Hk s r s'. unfold mbind, M_bind.
  destruct (m s) as [[a|e] s1] eqn:Hms.
  - intros Hka. rewrite (Hk _ _ _ _ Hka). apply (Hm _ _ _ Hms).
  - intros [= <- <-]. apply (Hm _ _ _ Hms).
Qed.

Lemma keeps_own_lift {A} (e : M W A) : keeps_own (lift (X := X) e).
Proof.
  intros [w x] r s'. unfold lift. simpl. destruct (e w) as [r' w'].
  by intros [= <- <-].
Qed.

Lemma keeps_own_of_result {A} (r : result A) : keeps_own (of_result (S := W * X) r).
Proof. intros s r' s'. unfold of_result. by intros [= <- <-]. Qed.

Lemma keeps_own_mret {A} (a : A) : keeps_own (mret (M := M (W * X)) a).
Proof. intros s r' s'. unfold mret, M_ret. by intros [= <- <-]. Qed.

Lemma keeps_own_raise {A} (e : exn) : keeps_own (raise (S := W * X) (A := A) e).
Proof. intros s r' s'. unfold raise. by intros [= <- <-]. Qed.

Lemma keeps_own_py_assert (b : bool) : keeps_own (py_assert (S := W * X) b).
Proof. destruct b; [apply keeps_own_mret | apply keeps_own_raise]. Qed.
End own_state.

Create HintDb keeps_own discriminated.
#[global] Hint Resolve keeps_own_lift keeps_own_of_result keeps_own_mret
  keeps_own_raise keeps_own_py_assert : keeps_own.

Ltac keeps_own :=
  repeat first
    [ progress eauto with keeps_own
    | apply keeps_own_bind; [| intros ?]
    | match goal with
      | |- keeps_own (let '(_, _) := ?p in _) => destruct p
      | |- keeps_own (if ?b then _ else _) => destruct b
      end ].

Lemma result_bind_ok {A B} (r : result A) (k : A → result B) b :
  r ≫= k = Ok b → ∃ a, r = Ok a ∧ k a = Ok b.
Proof. destruct r as [a|e]; [eauto | discriminate]. Qed.

(** ** The forward/backward split *)

Section split_facts.
Import torch_autograd.
Context {W : Type} {E : Externals W}.

Lemma any_false_of_no_grad (flat_args : list value) :
  (∀ v, v ∈ flat_args → tensor_requires_grad v = false) →
  existsb id (tensor_requires_grad <$> flat_args) = false.
Proof.
  induction flat_args as [|v l IH]; intros Hall; [done |]. simpl.
  rewrite (Hall v) by apply list_elem_of_here. simpl.
  apply IH. intros v' Hv'. apply Hall. by apply list_elem_of_further.
Qed.

(** C2: when binding succeeds and no flattened bound argument is a tensor
    requiring a gradient, the split routine raises the
    "at least one tensor input with requires_grad=True" [RuntimeError]
    and leaves the state of the compiler core and the statistics record
    exactly as they were: whatever tracing would do to the world, it has
    not been done. *)
Theorem split_rejects_inputs_without_grad
    (compile_config : gmap string cfg_value) (compile_data : option CompileData)
    (call_args ba : pytree) (s : W * option CompileStats) :
  sig_bind call_args = Ok ba →
  (∀ v, v ∈ tree_flatten ba → tensor_requires_grad v = false) →
  split_forward_backward compile_config compile_data call_args s
  = (Err (RuntimeError no_grad_message), s).
Proof.
  intros Hbind Hnone. unfold split_forward_backward.
  apply bind_err. unfold bind_and_check.
  rewrite (bind_run _ _ s ba s) by (unfold of_result; by rewrite Hbind).
  by rewrite any_false_of_no_grad.
Qed.

Lemma filter_input_grads_ok (bw_trace bw_trace' : TraceCtx) (mask : list bool) :
  filter_input_grads bw_trace mask = Ok bw_trace' →
  ∃ body ret grads,
    bound_symbols bw_trace = body ++ [ret]
    ∧ sym ret = RETURN
    ∧ args ret !! 0%nat = Some (Node grads)
    ∧ length grads = length mask
    ∧ bw_trace' = set_bound_symbols bw_trace
        (body ++ [replace_args ret
                    [Node (zip_with (λ (g : pytree) (rg : bool),
                                       if rg then g else Leaf VNone) grads mask)]]).
Proof.
  unfold filter_input_grads.
  destruct (last (bound_symbols bw_trace)) as [ret|] eqn:Hlast; [| discriminate].
  apply last_Some in Hlast as [body Hbody].
  case_bool_decide as Hsym; simpl; [| discriminate].
  intros (grads_tree & Hidx & Hrest)%result_bind_ok.
  apply result_bind_ok in Hrest as (grads & Hiter & Hrest).
  apply result_bind_ok in Hrest as (pairs & Hzip & [= <-]).
  unfold list_index in Hidx.
  destruct (args ret !! 0%nat) as [g0|] eqn:Harg; [| discriminate].
  injection Hidx as ->.
  destruct grads_tree as [|children]; [discriminate |]. injection Hiter as ->.
  unfold safe_zip in Hzip. case_bool_decide as Hlen; [| discriminate].
  injection Hzip as <-.
  exists body, ret, grads. repeat split; try done.
  f_equal. rewrite Hbody, length_app. simpl.
  replace (pred (length body + 1)) with (length body + 0)%nat by lia.
  rewrite insert_app_r. simpl. do 5 f_equal.
  clear. revert mask.
  induction grads as [|g grads IH]; intros [|rg mask]; simpl; [done.. |].
  by rewrite <- IH.
Qed.

Lemma filter_input_grads_total (bw_trace : TraceCtx) (mask : list bool) body ret grads rest :
  bound_symbols bw_trace = body ++ [ret] →
  sym ret = RETURN →
  args ret = Node grads :: rest →
  length grads = length mask →
  ∃ bw_trace', filter_input_grads bw_trace mask = Ok bw_trace'.
Proof.
  intros Hbody Hsym Hargs Hlen. unfold filter_input_grads.
  rewrite Hbody, last_snoc. rewrite bool_decide_eq_true_2 by done. simpl.
  unfold list_index. rewrite Hargs. simpl.
  unfold safe_zip. rewrite bool_decide_eq_true_2 by done. simpl. eauto.
Qed.

Lemma bind_and_check_keeps_own (call_args : pytree) :
  keeps_own (bind_and_check call_args).
Proof. unfold bind_and_check. keeps_own. Qed.

Lemma trace_and_differentiate_keeps_own (compile_data : option CompileData) (ba : pytree) :
  keeps_own (trace_and_differentiate compile_data ba).
Proof. unfold trace_and_differentiate. keeps_own. Qed.

Lemma patch_saved_tensors_keeps_own (fw_extrace bw_trace : TraceCtx) :
  keeps_own (patch_saved_tensors fw_extrace bw_trace).
Proof. unfold patch_saved_tensors. keeps_own. Qed.

Lemma optimize_keeps_own (compile_config : gmap string cfg_value)
    (fw_trace bw_trace : TraceCtx) :
  keeps_own (optimize compile_config fw_trace bw_trace).
Proof.
  unfold optimize. pose proof patch_saved_tensors_keeps_own. keeps_own.
Qed.

Lemma record_and_wrap_without_stats
    (compile_config : gmap string cfg_value) (compile_data : option CompileData)
    (primal fw_extrace bw_extrace : TraceCtx) (w : W) :
  record_and_wrap compile_config compile_data primal fw_extrace bw_extrace (w, None)
  = (Ok (python_callable fw_extrace, python_callable bw_extrace), (w, None)).
Proof. reflexivity. Qed.

(** With a statistics record, compile data and a request for graph
    replay, the traces are recorded and both callables are wrapped. *)
Lemma record_and_wrap_with_stats
    (compile_config : gmap string cfg_value) (cd : CompileData)
    (primal fw_extrace bw_extrace : TraceCtx) (w : W) (stats : CompileStats)
    (r : callable * callable) s' :
  use_cudagraphs cd || truthy (dict_get compile_config "use_cudagraphs" (CBool false)) = true →
  record_and_wrap compile_config (Some cd) primal fw_extrace bw_extrace (w, Some stats)
  = (Ok r, s') →
  ∃ saved_tensors rest0 rest1,
    trace_args bw_extrace = Node (Node (Node saved_tensors :: rest0) :: rest1)
    ∧ s' = (w, Some {| primal_trace := Some primal;
                       forward_last_traces := [fw_extrace];
                       backward_last_traces := [bw_extrace] |})
    ∧ r = (CUDAGraphExecutor (python_callable fw_extrace) (num_constant_args cd),
           CUDAGraphExecutor (python_callable bw_extrace)
             (Z.of_nat (length saved_tensors))).
Proof.
  intros Hreq. unfold record_and_wrap.
  unfold mbind, M_bind, get_own, put_own, mret, M_ret, of_result. simpl.
  rewrite Hreq.
  destruct (trace_args bw_extrace) as [|l1]; [discriminate |].
  destruct l1 as [|c0 rest1]; [discriminate |].
  destruct c0 as [|l0]; [discriminate |].
  destruct l0 as [|c00 rest0]; [discriminate |].
  destruct c00 as [|saved_tensors]; [discriminate |].
  simpl. intros [= <- <-]. eauto 6.
Qed.

(** Without a statistics record the routine never wraps its callables,
    whatever the configuration and the compile data ask for. *)
Lemma split_without_stats_never_wraps
    (compile_config : gmap string cfg_value) (compile_data : option CompileData)
    (call_args : pytree) (w : W) (s' : W * option CompileStats) (r : callable * callable) :
  split_forward_backward compile_config compile_data call_args (w, None) = (Ok r, s') →
  ∃ fw_extrace bw_extrace,
    r = (python_callable fw_extrace, python_callable bw_extrace).
Proof.
  unfold split_forward_backward.
  intros ([ba mask] & s0 & Hcheck & Hrun)%bind_ok.
  apply bind_ok in Hrun as ([[primal fw_trace] bw_trace] & s1 & Htrace & Hrun).
  apply bind_ok in Hrun as (bw_trace' & s2 & Hfilter & Hrun).
  apply bind_ok in Hrun as ([fw_extrace bw_extrace] & s3 & Hopt & Hrun).
  apply bind_and_check_keeps_own in Hcheck.
  apply trace_and_differentiate_keeps_own in Htrace.
  apply keeps_own_of_result in Hfilter.
  apply optimize_keeps_own in Hopt.
  destruct s3 as [w3 stats3]. simpl in *.
  assert (stats3 = None) as -> by congruence.
  rewrite record_and_wrap_without_stats in Hrun. injection Hrun as <- <-.
  eauto.
Qed.

(** C3, amended: in every run of the split routine that is given
    compile-time data and a statistics record, in which capture-graph
    replay is requested by the compile configuration or by the
    compile-time data, and that returns, the finalized forward and
    backward traces are recorded on the statistics and both returned
    callables are the capture/replay executor around the callable of the
    recorded trace: the forward one with the constant-argument count of
    the compile-time data, the backward one with the number of saved
    tensors, [len(bw_extrace.args[0][0])]. *)
Theorem split_wraps_when_stats_recorded
    (compile_config : gmap string cfg_value) (cd : CompileData)
    (call_args : pytree) (w : W) (stats : CompileStats)
    (s' : W * option CompileStats) (r : callable * callable) :
  use_cudagraphs cd || truthy (dict_get compile_config "use_cudagraphs" (CBool false)) = true →
  split_forward_backward compile_config (Some cd) call_args (w, Some stats) = (Ok r, s') →
  ∃ (primal fw_extrace bw_extrace : TraceCtx) (saved_tensors rest0 rest1 : list pytree),
    s'.2 = Some {| primal_trace := Some primal;
                   forward_last_traces := [fw_extrace];
                   backward_last_traces := [bw_extrace] |}
    ∧ trace_args bw_extrace = Node (Node (Node saved_tensors :: rest0) :: rest1)
    ∧ r = (CUDAGraphExecutor (python_callable fw_extrace) (num_constant_args cd),
           CUDAGraphExecutor (python_callable bw_extrace)
             (Z.of_nat (length saved_tensors))).
Proof.
  intros Hreq. unfold split_forward_backward.
  intros ([ba mask] & s0 & Hcheck & Hrun)%bind_ok.
  apply bind_ok in Hrun as ([[primal fw_trace] bw_trace] & s1 & Htrace & Hrun).
  apply bind_ok in Hrun as (bw_trace' & s2 & Hfilter & Hrun).
  apply bind_ok in Hrun as ([fw_extrace bw_extrace] & s3 & Hopt & Hrun).
  apply bind_and_check_keeps_own in Hcheck.
  apply trace_and_differentiate_keeps_own in Htrace.
  apply keeps_own_of_result in Hfilter.
  apply optimize_keeps_own in Hopt.
  destruct s3 as [w3 stats3]. simpl in *.
  assert (stats3 = Some stats) as -> by congruence.
  apply record_and_wrap_with_stats in Hrun
    as (saved_tensors & rest0 & rest1 & Hargs & -> & ->); [| done].
  by exists primal, fw_extrace, bw_extrace, saved_tensors, rest0, rest1.
Qed.

Lemma lift_run_ok {X A} (e : M W A) (s s' : W * X) (a : A) :
  lift e s = (Ok a, s') → e s.1 = (Ok a, s'.1).
Proof.
  unfold lift. destruct (e s.1) as [r w']. by intros [= -> <-].
Qed.

Lemma patch_saved_tensors_keeps_return
    (fw_extrace bw_trace bw_trace' : TraceCtx) (ret : BoundSymbol)
    (s s' : W * option CompileStats) :
  backward_passes_keep_return →
  last (bound_symbols bw_trace) = Some ret →
  sym ret = RETURN →
  patch_saved_tensors fw_extrace bw_trace s = (Ok bw_trace', s') →
  last (bound_symbols bw_trace') = Some ret.
Proof.
  intros (_ & _ & _ & _ & Hswap) Hlast Hsym. unfold patch_saved_tensors.
  intros (original & s1 & _ & Hrun)%bind_ok.
  apply bind_ok in Hrun as (new & s2 & _ & Hrun).
  apply bind_ok in Hrun as (xs & s3 & _ & Hrun).
  apply bind_ok in Hrun as (ys & s4 & _ & Hrun).
  apply bind_ok in Hrun as (new_bsyms & s5 & Hnew & Hrun).
  apply lift_run_ok, Hswap in Hnew as [Hlen Hlast'].
  apply bind_ok in Hrun as (b0 & s6 & _ & Hrun).
  apply bind_ok in Hrun as ([] & s7 & _ & Hrun).
  apply bind_ok in Hrun as (name & s8 & _ & Hrun).
  apply bind_ok in Hrun as ([] & s9 & _ & Hrun).
  apply bind_ok in Hrun as (b4 & s10 & Hb4 & Hrun).
  apply of_result_ok in Hb4 as [Hb4 ->].
  apply bind_ok in Hrun as ([] & s11 & Hsym4 & Hrun).
  apply bind_ok in Hrun as (c0 & s12 & _ & Hrun).
  apply bind_ok in Hrun as ([] & s13 & _ & Hrun).
  apply bind_ok in Hrun as (nb4 & s14 & _ & Hrun).
  apply bind_ok in Hrun as (nb4' & s15 & _ & [= <- _]).
  simpl. rewrite last_lookup, length_insert, list_lookup_insert_ne.
  - by rewrite <- last_lookup, Hlast'.
  - intros Hfour. unfold py_assert in Hsym4.
    case_bool_decide as Hb4sym; [| discriminate].
    unfold list_index in Hb4.
    destruct (bound_symbols bw_trace !! 4%nat) as [b|] eqn:Hb; [| discriminate].
    injection Hb4 as ->.
    rewrite last_lookup, <- Hlen, <- Hfour, Hb in Hlast.
    injection Hlast as ->. congruence.
Qed.

Lemma optimize_keeps_return
    (compile_config : gmap string cfg_value) (fw_trace bw_trace : TraceCtx)
    (fw_extrace bw_extrace : TraceCtx) (ret : BoundSymbol)
    (s s' : W * option CompileStats) :
  backward_passes_keep_return →
  last (bound_symbols bw_trace) = Some ret →
  sym ret = RETURN →
  optimize compile_config fw_trace bw_trace s = (Ok (fw_extrace, bw_extrace), s') →
  last (bound_symbols bw_extrace) = Some ret.
Proof.
  intros Hpasses Hlast Hsym. pose proof Hpasses as (Htfe & Hsort & Hdel & Hremat & _).
  unfold optimize.
  intros (fwx & s1 & _ & Hrun)%bind_ok.
  apply bind_ok in Hrun as (bw1 & s2 & Hpatch & Hrun).
  apply (patch_saved_tensors_keeps_return _ _ _ ret) in Hpatch; [| done..].
  apply bind_ok in Hrun as (bw2 & s3 & Hbw2 & Hrun).
  apply lift_run_ok, Htfe in Hbw2.
  apply bind_ok in Hrun as ([fw3 bw3] & s4 & Hbw3 & Hrun).
  apply lift_run_ok, Hremat in Hbw3.
  apply bind_ok in Hrun as (bw4 & s5 & Hbw4 & Hrun).
  apply lift_run_ok, Hsort in Hbw4.
  apply bind_ok in Hrun as (fw5 & s6 & _ & Hrun).
  apply bind_ok in Hrun as (bw6 & s7 & Hbw6 & [= _ <- _]).
  apply lift_run_ok, Hdel in Hbw6. congruence.
Qed.

Lemma record_and_wrap_trace
    (compile_config : gmap string cfg_value) (compile_data : option CompileData)
    (primal fw_extrace bw_extrace : TraceCtx) (s s' : W * option CompileStats)
    (r : callable * callable) :
  record_and_wrap compile_config compile_data primal fw_extrace bw_extrace s = (Ok r, s') →
  callable_trace r.1 = fw_extrace ∧ callable_trace r.2 = bw_extrace.
Proof.
  unfold record_and_wrap, mbind, M_bind, get_own, put_own, mret, M_ret, raise, of_result.
  simpl. destruct s.2 as [stats|]; [| by intros [= <- _]].
  destruct compile_data as [cd|]; [| discriminate].
  destruct (use_cudagraphs cd || _); [| by intros [= <- _]].
  destruct (result_bind _ _) as [n|e]; [| discriminate]. by intros [= <- _].
Qed.

(** C7: in every run of the split routine that returns, the backward
    trace produced by differentiation ends in a return whose first
    argument holds one gradient per flattened input, and the routine goes
    on with that trace in which the return has been given, as its only
    argument, the tuple rewritten position by position: the computed
    gradient where the flattened input requires a gradient, [None] where
    it does not; everything else in the trace is left as it was.  The
    callables returned are what optimisation and wrapping make of that
    trace; when the passes that optimisation runs on the backward trace
    leave its return alone, the trace of the returned backward callable
    ends in this very return. *)
Theorem split_filters_backward_return
    (compile_config : gmap string cfg_value) (compile_data : option CompileData)
    (call_args : pytree) (s s' : W * option CompileStats) (r : callable * callable) :
  split_forward_backward compile_config compile_data call_args s = (Ok r, s') →
  ∃ (ba : pytree) (primal fw_trace bw_trace : TraceCtx) (s1 : W * option CompileStats)
    (body : list BoundSymbol) (ret : BoundSymbol) (grads filtered : list pytree),
    let mask := tensor_requires_grad <$> tree_flatten ba in
    let new_ret := {| sym := RETURN; args := [Node filtered];
                      kwargs := kwargs ret; output := output ret |} in
    sig_bind call_args = Ok ba
    ∧ trace_and_differentiate compile_data ba s = (Ok (primal, fw_trace, bw_trace), s1)
    ∧ bound_symbols bw_trace = body ++ [ret]
    ∧ sym ret = RETURN
    ∧ args ret !! 0%nat = Some (Node grads)
    ∧ length grads = length mask
    ∧ length filtered = length mask
    ∧ (∀ (i : nat) (g : pytree) (requires_grad : bool),
         grads !! i = Some g → mask !! i = Some requires_grad →
         filtered !! i = Some (if requires_grad then g else Leaf VNone))
    ∧ (optimize compile_config fw_trace
         {| bound_symbols := body ++ [new_ret];
            trace_args := trace_args bw_trace;
            trace_output := trace_output bw_trace |}
       ≫= λ p, record_and_wrap compile_config compile_data primal p.1 p.2) s1
      = (Ok r, s')
    ∧ (backward_passes_keep_return →
       last (bound_symbols (callable_trace r.2)) = Some new_ret).
Proof.
  unfold split_forward_backward.
  intros ([ba0 mask0] & s0 & Hcheck & Hrun)%bind_ok.
  apply bind_ok in Hrun as ([[primal fw_trace] bw_trace] & s1 & Htrace & Hrun).
  apply bind_ok in Hrun as (bw_trace' & s2 & Hfilter & Hrun).
  apply of_result_ok in Hfilter as [Hfilter ->].
  unfold bind_and_check in Hcheck.
  apply bind_ok in Hcheck as (ba & s3 & Hbind & Hcheck).
  apply of_result_ok in Hbind as [Hbind ->].
  destruct (negb _); [discriminate |].
  apply mret_ok in Hcheck as [[= -> ->] ->].
  apply filter_input_grads_ok in Hfilter
    as (body & ret & grads & Hbody & Hsym & Hargs & Hlen & ->).
  exists ba, primal, fw_trace, bw_trace, s1, body, ret, grads.
  exists (zip_with (λ (g : pytree) (rg : bool), if rg then g else Leaf VNone)
            grads (tensor_requires_grad <$> tree_flatten ba)).
  cbv zeta. do 6 (split; [done |]).
  unfold set_bound_symbols, replace_args in Hrun. rewrite Hsym in Hrun.
  split; [| split; [| split]].
  - rewrite length_zip_with. rewrite Hlen. lia.
  - intros i g rg Hg Hrg. rewrite lookup_zip_with, Hg, Hrg. reflexivity.
  - rewrite <- Hrun. unfold mbind, M_bind.
    destruct (optimize _ _ _ _) as [[[fwx bwx]|e] sx]; reflexivity.
  - intros Hpasses.
    apply bind_ok in Hrun as ([fw_extrace bw_extrace] & s4 & Hopt & Hwrap).
    apply record_and_wrap_trace in Hwrap as [_ ->].
    eapply optimize_keeps_return; [done | | | exact Hopt]; simpl.
    + apply last_snoc.
    + done.
Qed.

End split_facts.

Section split_runs.
Import torch_autograd.

Lemma split_rejects_inputs_without_grad_witness :
  split_forward_backward sample.with_cudagraphs (Some sample.compile_data)
    sample.frozen_call_args ([], Some sample.empty_stats)
  = (Err (RuntimeError no_grad_message), ([], Some sample.empty_stats)).
Proof.
  apply (split_rejects_inputs_without_grad _ _ _ sample.frozen_call_args);
    [reflexivity |].
  intros v Hv. cbn in Hv.
  repeat (apply elem_of_cons in Hv as [-> | Hv]; [reflexivity |]).
  by apply elem_of_nil in Hv.
Defined.

(** C3 as stated does not hold: with replay requested both by the
    configuration and by the compile-time data, but no statistics record,
    the routine returns the two plain callables. *)
Lemma split_without_stats_returns_plain_callables :
  ∃ (fw_extrace bw_extrace : TraceCtx) (s' : list string * option CompileStats),
    use_cudagraphs sample.compile_data = true
    ∧ truthy (dict_get sample.with_cudagraphs "use_cudagraphs" (CBool false)) = true
    ∧ split_forward_backward sample.with_cudagraphs (Some sample.compile_data)
        sample.call_args ([], None)
      = (Ok (python_callable fw_extrace, python_callable bw_extrace), s').
Proof.
  destruct (split_forward_backward sample.with_cudagraphs (Some sample.compile_data)
              sample.call_args ([], None)) as [[r|e] s'] eqn:Hrun;
    [| vm_compute in Hrun; discriminate].
  destruct (split_without_stats_never_wraps _ _ _ _ _ _ Hrun)
    as (fw_extrace & bw_extrace & ->).
  exists fw_extrace, bw_extrace, s'. split; [reflexivity |]. split; reflexivity.
Qed.

Lemma split_wraps_when_stats_recorded_witness :
  ∃ (r : callable * callable) (s' : list string * option CompileStats)
    (fw_extrace bw_extrace : TraceCtx),
    split_forward_backward sample.with_cudagraphs (Some sample.compile_data)
      sample.call_args ([], Some sample.empty_stats) = (Ok r, s')
    ∧ r = (CUDAGraphExecutor (python_callable fw_extrace) 2,
           CUDAGraphExecutor (python_callable bw_extrace) 2).
Proof.
  destruct (split_forward_backward sample.with_cudagraphs (Some sample.compile_data)
              sample.call_args ([], Some sample.empty_stats)) as [[r|e] s'] eqn:Hrun;
    [| vm_compute in Hrun; discriminate].
  destruct (split_wraps_when_stats_recorded sample.with_cudagraphs sample.compile_data
              sample.call_args [] sample.empty_stats s' r eq_refl Hrun)
    as (primal & fw_extrace & bw_extrace & saved & rest0 & rest1 & Hstats & Hargs & ->).
  eexists _, s', fw_extrace, bw_extrace. split; [reflexivity |].
  assert (trace_args bw_extrace = trace_args sample.bw) as Hbw.
  { apply (f_equal (λ x : result (callable * callable)
                          * (list string * option CompileStats),
                      match x.1 with
                      | Ok (_, CUDAGraphExecutor (python_callable trace) _) =>
                          Some (trace_args trace)
                      | _ => None
                      end)) in Hrun.
    vm_compute in Hrun. injection Hrun as Hbw. symmetry. exact Hbw. }
  rewrite Hbw in Hargs. injection Hargs as <- _ _. reflexivity.
Defined.

Lemma sample_passes_keep_return : backward_passes_keep_return (E := sample.externals).
Proof.
  split; [| split; [| split; [| split]]].
  - by intros executors_list trace w trace' w' [= <- _].
  - by intros trace w trace' w' [= <- _].
  - by intros trace w trace' w' [= <- _].
  - by intros fw bw w fw' bw' w' [= _ <- _].
  - by intros swap_map bsyms w bsyms' w' [= <- _].
Qed.

Lemma split_filters_backward_return_witness :
  ∃ (r : callable * callable) (s' : list string * option CompileStats)
    (new_ret : BoundSymbol),
    split_forward_backward sample.with_cudagraphs (Some sample.compile_data)
      sample.call_args ([], Some sample.empty_stats) = (Ok r, s')
    ∧ last (bound_symbols (callable_trace r.2)) = Some new_ret
    ∧ sym new_ret = RETURN
    ∧ args new_ret = [Node [sample.t "ga"; Leaf VNone; Leaf VNone]].
Proof.
  destruct (split_forward_backward sample.with_cudagraphs (Some sample.compile_data)
              sample.call_args ([], Some sample.empty_stats)) as [[r|e] s'] eqn:Hrun;
    [| vm_compute in Hrun; discriminate].
  destruct (split_filters_backward_return _ _ _ _ _ _ Hrun)
    as (ba & primal & fw_trace & bw_trace & s1 & body & ret & grads & filtered
        & Hbind & Htrace & Hbody & _ & Hargs & _ & Hlen & Hfiltered & _ & Hfinal).
  injection Hbind as <-.
  injection Htrace as _ _ <- _.
  apply (f_equal last) in Hbody. rewrite last_snoc in Hbody.
  injection Hbody as <-. injection Hargs as <-.
  eexists r, s', _. split; [reflexivity |].
  split; [exact (Hfinal sample_passes_keep_return) |]. split; [reflexivity |].
  simpl. do 2 f_equal.
  pose proof (Hfiltered 0%nat _ true eq_refl eq_refl) as H0.
  pose proof (Hfiltered 1%nat _ false eq_refl eq_refl) as H1.
  pose proof (Hfiltered 2%nat _ false eq_refl eq_refl) as H2.
  destruct filtered as [|f0 [|f1 [|f2 [|f3 filtered]]]]; try discriminate Hlen.
  by injection H0 as ->; injection H1 as ->; injection H2 as ->.
Defined.
End split_runs.

(** ** The gradient all-reduce rewrite *)

Section allreduce_facts.
Import torch_autograd.
Context {W : Type} {E : Externals W}.
Variables (world_size : value) (pg : ProcessGroup).

Lemma lift_ok {X A} (e : M W A) (w : W) (x : X) (a : A) (s' : W * X) :
  lift e (w, x) = (Ok a, s') → ∃ w', e w = (Ok a, w') ∧ s' = (w', x).
Proof.
  unfold lift. simpl. destruct (e w) as [r w']. intros [= -> <-]. eauto.
Qed.

Lemma forM__app {S A} (f : A → M S unit) (l1 l2 : list A) (s s' : S) :
  forM_ f (l1 ++ l2) s = (Ok (), s') →
  ∃ s1, forM_ f l1 s = (Ok (), s1) ∧ forM_ f l2 s1 = (Ok (), s').
Proof.
  revert s. induction l1 as [|a l1 IH]; intros s; simpl.
  - intros H. by exists s.
  - intros ([] & s0 & Ha & Hrest)%bind_ok.
    apply IH in Hrest as (s1 & H1 & H2). exists s1. split; [| done].
    by rewrite (bind_run _ _ _ _ _ Ha).
Qed.

Lemma is_tracked_grad_true (table : gmap string pytree) (v : value) :
  is_tracked_grad table v = true ↔
  ∃ name rg, v = VTensorProxy name rg ∧ name ∈ dom table.
Proof.
  unfold is_tracked_grad. split.
  - destruct v; simpl; try discriminate.
    intros Hin%bool_decide_eq_true_1. eexists _, _. split; [done |].
    by apply elem_of_dom.
  - intros (name & rg & -> & Hin%elem_of_dom). simpl.
    by apply bool_decide_eq_true_2.
Qed.

Lemma is_tracked_grad_dom (t1 t2 : gmap string pytree) (v : value) :
  dom t1 = dom t2 → is_tracked_grad t1 v = is_tracked_grad t2 v.
Proof.
  intros Hdom. destruct (is_tracked_grad t2 v) eqn:H2.
  - apply is_tracked_grad_true in H2 as (name & rg & -> & Hin).
    apply is_tracked_grad_true. exists name, rg. by rewrite Hdom.
  - destruct (is_tracked_grad t1 v) eqn:H1; [| done].
    apply is_tracked_grad_true in H1 as (name & rg & -> & Hin).
    rewrite Hdom in Hin. rewrite <- H2. symmetry.
    apply is_tracked_grad_true. eauto.
Qed.

Lemma tracked_outputs_filter (gradients : list value) (table : gmap string pytree)
    (bsym : BoundSymbol) :
  dom table = dom (init_grad_to_future gradients) →
  filter (λ v, is_tracked_grad table v = true) (_flat_outs bsym)
  = tracked_outputs gradients bsym.
Proof.
  intros Hdom. unfold tracked_outputs. apply list_filter_iff. intros v.
  by rewrite (is_tracked_grad_dom _ _ v Hdom).
Qed.

Lemma tracked_outputs_spec (gradients : list value) (bsym : BoundSymbol) (v : value) :
  v ∈ tracked_outputs gradients bsym ↔
  v ∈ _flat_outs bsym
  ∧ ∃ name rg, v = VTensorProxy name rg ∧ name ∈ dom (init_grad_to_future gradients).
Proof.
  unfold tracked_outputs. rewrite list_elem_of_filter, is_tracked_grad_true. tauto.
Qed.

Lemma record_futures_app table a b :
  record_futures table (a ++ b) = record_futures (record_futures table a) b.
Proof. apply foldl_app. Qed.

Lemma record_futures_dom (table : gmap string pytree) issued :
  Forall (λ p : value * (pytree * pytree),
            ∃ name, proxy_name p.1 = Some name ∧ name ∈ dom table) issued →
  dom (record_futures table issued) = dom table.
Proof.
  revert table. induction issued as [|p issued IH]; intros table Hall; [done |].
  apply Forall_cons in Hall as [(name & Hname & Hin) Hall]. simpl. rewrite Hname.
  assert (dom (<[name := p.2.2]> table) = dom table) as Hdom.
  { rewrite dom_insert_L. apply subseteq_union_1_L. by apply singleton_subseteq_l. }
  rewrite <- Hdom. apply IH. by rewrite Hdom.
Qed.

Lemma record_futures_lookup (table : gmap string pytree) issued name x :
  table !! name = Some x →
  record_futures table issued !! name
  = Some (match last (filter (λ p : value * (pytree * pytree),
                                proxy_name p.1 = Some name) issued) with
          | Some p => p.2.2
          | None => x
          end).
Proof.
  revert table x. induction issued as [|p issued IH]; intros table x Hx; [done |].
  simpl. destruct (decide (proxy_name p.1 = Some name)) as [Hp | Hp].
  - rewrite Hp. rewrite filter_cons_True by done.
    rewrite (IH _ p.2.2) by apply lookup_insert_eq.
    generalize (filter (λ p0 : value * (pytree * pytree), proxy_name p0.1 = Some name)
                  issued).
    intros [|q l]; [reflexivity |].
    change (last (p :: q :: l)) with (last (q :: l)).
    destruct (last (q :: l)) as [r|] eqn:Hl; [done |]. by apply last_None in Hl.
  - rewrite filter_cons_False by done.
    destruct (proxy_name p.1) as [name'|]; [| by apply IH].
    apply IH. rewrite lookup_insert_ne; [done | congruence].
Qed.

Lemma call_symbol_ok id a kw (w : W) (t : tracer) out s' :
  call_symbol id a kw (w, t) = (Ok out, s') →
  ∃ w', meta id a kw w = (Ok out, w')
        ∧ s' = (w', {| emitted := emitted t;
                       scope := scope t ++ [bsym_of id a kw out];
                       grad_to_future := grad_to_future t |}).
Proof.
  unfold call_symbol. intros (out' & s1 & Hmeta & H)%bind_ok.
  apply lift_ok in Hmeta as (w' & Hmeta & ->).
  unfold mbind, M_bind, get_own, put_own, mret, M_ret in H. simpl in H.
  injection H as <- <-. eauto.
Qed.

Local Abbreviation traced_future := (traced_future pg).

Lemma allreduce_grad_ok grad (w : W) (t : tracer) s' :
  allreduce_grad world_size pg grad (w, t) = (Ok (), s') →
  ∃ name w' (o : pytree * pytree),
    proxy_name grad = Some name
    ∧ traced_future o
    ∧ s' = (w', {| emitted := emitted t;
                   scope := scope t ++ communication world_size pg grad o.1 o.2;
                   grad_to_future := <[name := o.2]> (grad_to_future t) |}).
Proof.
  unfold allreduce_grad. intros (pre & s1 & Hdiv & H)%bind_ok.
  apply call_symbol_ok in Hdiv as (w1 & _ & ->).
  apply bind_ok in H as (fut & s2 & Har & H).
  apply call_symbol_ok in Har as (w2 & Hmeta & ->). simpl in H.
  unfold set_future, mbind, M_bind, get_own, put_own, raise in H. simpl in H.
  destruct (proxy_name grad) as [name|]; [| discriminate].
  injection H as <-. exists name, w2, (pre, fut). split; [done |].
  split; [by exists w1, w2 |]. by rewrite <- app_assoc.
Qed.

Lemma forM__allreduce_grad (gs : list value) :
  ∀ (w : W) (t : tracer) s',
    forM_ (allreduce_grad world_size pg) gs (w, t) = (Ok (), s') →
    ∃ w' (o : list (pytree * pytree)),
      length o = length gs
      ∧ Forall traced_future o
      ∧ s' = (w', {| emitted := emitted t;
                     scope := scope t ++ communications world_size pg gs o;
                     grad_to_future := record_futures (grad_to_future t) (zip gs o) |}).
Proof.
  induction gs as [|g gs IH]; intros w t s' Hrun; simpl in Hrun.
  - injection Hrun as <-. exists w, []. rewrite app_nil_r. by destruct t.
  - apply bind_ok in Hrun as ([] & s1 & Hg & Hrun).
    apply allreduce_grad_ok in Hg as (name & w1 & o1 & Hname & Ho1 & ->).
    apply IH in Hrun as (w' & o & Hlen & Ho & ->). simpl.
    exists w', (o1 :: o). split; [simpl; by rewrite Hlen |].
    split; [by constructor |].
    unfold communications. simpl. rewrite Hname. by rewrite <- app_assoc.
Qed.

Variable gradients : list value.

(** Visiting an operation other than the return keeps it and follows it
    directly with the communication of each tracked gradient it outputs. *)
Lemma visit_one_operation (bsym : BoundSymbol) (w : W) (t : tracer) s' :
  sym bsym ≠ RETURN →
  visit_one (visit gradients world_size pg) bsym (w, t) = (Ok (), s') →
  dom (grad_to_future t) = dom (init_grad_to_future gradients) →
  ∃ w' (o : list (pytree * pytree)),
    length o = length (tracked_outputs gradients bsym)
    ∧ Forall traced_future o
    ∧ s' = (w', {| emitted :=
                     emitted t
                     ++ bsym :: communications world_size pg
                                  (tracked_outputs gradients bsym) o;
                   scope := [];
                   grad_to_future :=
                     record_futures (grad_to_future t)
                       (zip (tracked_outputs gradients bsym) o) |}).
Proof.
  intros Hsym Hrun Hdom. unfold visit_one in Hrun.
  apply bind_ok in Hrun as (t0 & s0 & [= <- <-] & Hrun).
  apply bind_ok in Hrun as ([] & s1 & [= <-] & Hrun).
  apply bind_ok in Hrun as (visit_type & s2 & Hvisit & Hrun).
  unfold visit in Hvisit. rewrite bool_decide_eq_false_2 in Hvisit by done.
  apply bind_ok in Hvisit as (t1 & s3 & [= <- <-] & Hvisit). simpl in Hvisit.
  rewrite (tracked_outputs_filter gradients) in Hvisit by done.
  set (start := {| emitted := emitted t; scope := [];
                   grad_to_future := grad_to_future t |}) in *.
  assert (∃ s2', forM_ (allreduce_grad world_size pg) (tracked_outputs gradients bsym)
                   (w, start) = (Ok (), s2')
                 ∧ visit_type = INSERT_AFTER ∧ s2 = s2') as (s2' & Hfor & -> & <-).
  { case_bool_decide as Hlen.
    - apply nil_length_inv in Hlen. rewrite Hlen.
      injection Hvisit as <- <-. by eexists.
    - apply bind_ok in Hvisit as ([] & s4 & Hfor & [= <- <-]). by eexists. }
  apply forM__allreduce_grad in Hfor as (w' & o & Hlen & Ho & ->).
  simpl in Hrun. injection Hrun as <-. by exists w', o.
Qed.

Lemma tracked_issued_in_dom (bsym : BoundSymbol) (o : list (pytree * pytree))
    (table : gmap string pytree) :
  dom table = dom (init_grad_to_future gradients) →
  Forall (λ p : value * (pytree * pytree),
            ∃ name, proxy_name p.1 = Some name ∧ name ∈ dom table)
    (zip (tracked_outputs gradients bsym) o).
Proof.
  intros Hdom. apply Forall_forall. intros [v q] Hin.
  apply elem_of_zip_l in Hin. simpl in Hin.
  apply tracked_outputs_spec in Hin as (_ & name & rg & -> & Hname).
  exists name. split; [done |]. by rewrite Hdom.
Qed.

(** The sweep over the operations before the return. *)
Lemma visit_operations (body : list BoundSymbol) :
  ∀ (w : W) (t : tracer) s',
    Forall (λ bsym, sym bsym ≠ RETURN) body →
    forM_ (visit_one (visit gradients world_size pg)) body (w, t) = (Ok (), s') →
    dom (grad_to_future t) = dom (init_grad_to_future gradients) →
    scope t = [] →
    ∃ w' (outs : list (list (pytree * pytree))),
      Forall2 (λ bsym o, length o = length (tracked_outputs gradients bsym)
                         ∧ Forall traced_future o) body outs
      ∧ s' = (w', {| emitted :=
                       emitted t
                       ++ concat (zip_with
                                    (λ bsym o,
                                       bsym :: communications world_size pg
                                                 (tracked_outputs gradients bsym) o)
                                    body outs);
                     scope := [];
                     grad_to_future :=
                       record_futures (grad_to_future t)
                         (concat (zip_with
                                    (λ bsym o, zip (tracked_outputs gradients bsym) o)
                                    body outs)) |}).
Proof.
  induction body as [|bsym body IH]; intros w t s' Hbody Hrun Hdom Hscope.
  - injection Hrun as <-. exists w, []. split; [constructor |].
    simpl. rewrite app_nil_r. destruct t. simpl in *. by subst.
  - apply Forall_cons in Hbody as [Hsym Hbody]. simpl in Hrun.
    apply bind_ok in Hrun as ([] & s1 & Hvisit & Hrun).
    apply visit_one_operation in Hvisit as (w1 & o & Hlen & Ho & ->); [| done..].
    apply IH in Hrun as (w' & outs & Houts & ->); simpl; [| done | | done].
    + exists w', (o :: outs). split; [by constructor |]. simpl.
      rewrite record_futures_app. by rewrite <- !app_assoc.
    + rewrite record_futures_dom; [done |]. by apply tracked_issued_in_dom.
Qed.

Lemma wait_or_none_ok (grad : value) (w : W) (t : tracer) (x : pytree) s' :
  wait_or_none grad (w, t) = (Ok x, s') →
  match grad with
  | VTensorProxy name _ =>
      ∃ future w',
        grad_to_future t !! name = Some future
        ∧ s' = (w', {| emitted := emitted t;
                       scope := scope t ++ [bsym_of WAIT [future] ∅ x];
                       grad_to_future := grad_to_future t |})
  | _ => x = Leaf VNone ∧ s' = (w, t)
  end.
Proof.
  unfold wait_or_none.
  destruct grad; simpl; try (by intros [= <- <-]).
  intros (fut & s1 & Hget & Hcall)%bind_ok.
  unfold get_future, mbind, M_bind, get_own, raise in Hget. simpl in Hget.
  destruct (grad_to_future t !! name) as [fut'|] eqn:Hfut; [| discriminate].
  injection Hget as <- <-.
  apply call_symbol_ok in Hcall as (w' & _ & ->). eauto.
Qed.

(** The slots of the new return, one per flattened gradient; [future]
    reads the table. *)
Lemma mapM_wait_or_none (future : string → pytree) (grads : list value) :
  ∀ (w : W) (t : tracer) (rets : list pytree) s',
    mapM wait_or_none grads (w, t) = (Ok rets, s') →
    (∀ name fut, grad_to_future t !! name = Some fut → fut = future name) →
    ∃ w',
      s' = (w', {| emitted := emitted t;
                   scope :=
                     scope t
                     ++ flat_map (λ p : value * pytree,
                                    match p.1 with
                                    | VTensorProxy name _ =>
                                        [bsym_of WAIT [future name] ∅ p.2]
                                    | _ => []
                                    end) (zip grads rets);
                   grad_to_future := grad_to_future t |})
      ∧ length rets = length grads
      ∧ ∀ (i : nat) (grad : value), grads !! i = Some grad →
          is_TensorProxy grad = false → rets !! i = Some (Leaf VNone).
Proof.
  induction grads as [|grad grads IH]; intros w t rets s' Hrun Htable; simpl in Hrun.
  - injection Hrun as <- <-. exists w. simpl. rewrite app_nil_r. destruct t.
    do 2 (split; [done |]). intros i grad Hi. by rewrite lookup_nil in Hi.
  - apply bind_ok in Hrun as (x & [w1 t1] & Hx & Hrun).
    apply bind_ok in Hrun as (xs & s2 & Hxs & [= <- <-]).
    apply wait_or_none_ok in Hx.
    assert (t1 = {| emitted := emitted t;
                    scope := scope t
                      ++ match grad with
                         | VTensorProxy name _ => [bsym_of WAIT [future name] ∅ x]
                         | _ => []
                         end;
                    grad_to_future := grad_to_future t |}
            ∧ (is_TensorProxy grad = false → x = Leaf VNone)) as [-> Hnone].
    { destruct grad;
        try (destruct Hx as [-> [= -> ->]]; rewrite app_nil_r; by destruct t).
      destruct Hx as (fut & w1' & Hfut & [= <- ->]).
      by rewrite (Htable _ _ Hfut). }
    apply IH in Hxs as (w' & -> & Hlen & Hslots); [| done].
    simpl. exists w'. rewrite <- app_assoc. split; [done |].
    split; [by rewrite Hlen |].
    intros [|i] g Hi Hg; simpl in *; [| by apply (Hslots i g)].
    injection Hi as <-. by rewrite Hnone.
Qed.

(** Visiting the return replaces it by the waits and the new return. *)
Lemma visit_one_return (future : string → pytree) (ret : BoundSymbol)
    (w : W) (t : tracer) s' :
  sym ret = RETURN →
  visit_one (visit gradients world_size pg) ret (w, t) = (Ok (), s') →
  (∀ name fut, grad_to_future t !! name = Some fut → fut = future name) →
  ∃ w' rets out,
    s' = (w', {| emitted :=
                   emitted t
                   ++ flat_map (λ p : value * pytree,
                                  match p.1 with
                                  | VTensorProxy name _ =>
                                      [bsym_of WAIT [future name] ∅ p.2]
                                  | _ => []
                                  end) (zip gradients rets)
                   ++ [bsym_of RETURN rets ∅ out];
                 scope := []; grad_to_future := grad_to_future t |})
    ∧ length rets = length gradients
    ∧ ∀ (i : nat) (grad : value), gradients !! i = Some grad →
        is_TensorProxy grad = false → rets !! i = Some (Leaf VNone).
Proof.
  intros Hsym Hrun Htable. unfold visit_one in Hrun.
  apply bind_ok in Hrun as (t0 & s0 & [= <- <-] & Hrun).
  apply bind_ok in Hrun as ([] & s1 & [= <-] & Hrun).
  apply bind_ok in Hrun as (visit_type & s2 & Hvisit & Hrun).
  unfold visit in Hvisit. rewrite bool_decide_eq_true_2 in Hvisit by done.
  apply bind_ok in Hvisit as (rets & s3 & Hwaits & Hvisit).
  apply (mapM_wait_or_none future) in Hwaits as (w1 & -> & Hlen & Hslots); [| done].
  apply bind_ok in Hvisit as (out & s4 & Hret & [= <- <-]).
  apply call_symbol_ok in Hret as (w2 & _ & ->).
  simpl in *. injection Hrun as <-.
  by exists w2, rets, out.
Qed.

Lemma init_grad_to_future_lookup (grads : list value) (name : string) (fut : pytree) :
  init_grad_to_future grads !! name = Some fut → fut = Leaf (VBool true).
Proof.
  unfold init_grad_to_future.
  assert (∀ d : gmap string pytree,
            (∀ fut, d !! name = Some fut → fut = Leaf (VBool true)) →
            ∀ fut,
              foldl (λ d grad,
                       if is_TensorProxy grad
                       then match proxy_name grad with
                            | Some name => <[name := Leaf (VBool true)]> d
                            | None => d
                            end
                       else d) d grads !! name = Some fut →
              fut = Leaf (VBool true)) as Hacc.
  { induction grads as [|g grads IH]; intros d Hd; simpl; [done |].
    apply IH. destruct (is_TensorProxy g); [| done].
    destruct (proxy_name g) as [n|]; [| done]. intros fut'.
    destruct (decide (n = name)) as [-> | Hne].
    - rewrite lookup_insert_eq. by intros [= <-].
    - rewrite lookup_insert_ne by done. apply Hd. }
  apply Hacc. intros fut'. by rewrite lookup_empty.
Qed.

Lemma init_grad_to_future_dom (grads : list value) (name : string) (rg : bool) :
  VTensorProxy name rg ∈ grads → name ∈ dom (init_grad_to_future grads).
Proof.
  unfold init_grad_to_future.
  assert (∀ d : gmap string pytree,
            name ∈ dom d ∨ VTensorProxy name rg ∈ grads →
            name ∈ dom (foldl (λ d grad,
                           if is_TensorProxy grad
                           then match proxy_name grad with
                                | Some name => <[name := Leaf (VBool true)]> d
                                | None => d
                                end
                           else d) d grads)) as Hacc.
  { induction grads as [|g grads IH]; intros d [Hd | Hin]; simpl.
    - done.
    - by apply elem_of_nil in Hin.
    - apply IH. left. destruct g; simpl; try done.
      rewrite dom_insert_L. set_solver.
    - apply IH. apply elem_of_cons in Hin as [<- | Hin]; [| by right].
      left. simpl. rewrite dom_insert_L. set_solver. }
  intros Hin. apply Hacc. by right.
Qed.

(** What the table holds for a name after the sweep. *)
Lemma swept_table_lookup (issued : list (value * (pytree * pytree)))
    (name : string) (fut : pytree) :
  record_futures (init_grad_to_future gradients) issued !! name = Some fut →
  (∀ p, p ∈ issued → ∃ n, proxy_name p.1 = Some n
                          ∧ n ∈ dom (init_grad_to_future gradients)) →
  fut = future_of name issued.
Proof.
  intros Hfut Hissued.
  assert (name ∈ dom (init_grad_to_future gradients)) as [x Hx]%elem_of_dom.
  { rewrite <- (record_futures_dom _ issued).
    - by apply elem_of_dom.
    - by apply Forall_forall. }
  rewrite (record_futures_lookup _ _ _ x Hx) in Hfut. injection Hfut as <-.
  apply init_grad_to_future_lookup in Hx as ->. reflexivity.
Qed.


(** The sweep over any operations, from any point of the rewrite. *)
Lemma visit_all (bsyms : list BoundSymbol) :
  ∀ (w : W) (t : tracer) s' (issued : list (value * (pytree * pytree))),
    forM_ (visit_one (visit gradients world_size pg)) bsyms (w, t) = (Ok (), s') →
    grad_to_future t = record_futures (init_grad_to_future gradients) issued →
    (∀ p, p ∈ issued → ∃ n, proxy_name p.1 = Some n
                            ∧ n ∈ dom (init_grad_to_future gradients)) →
    ∃ new, emitted s'.2 = emitted t ++ new
           ∧ rewritten world_size pg gradients issued bsyms new.
Proof.
  induction bsyms as [|bsym bsyms IH]; intros w t s' issued Hrun Htable Hissued.
  - injection Hrun as <-. exists []. rewrite app_nil_r. split; [done | constructor].
  - simpl in Hrun. apply bind_ok in Hrun as ([] & s1 & Hvisit & Hrun).
    assert (dom (grad_to_future t) = dom (init_grad_to_future gradients)) as Hdom.
    { rewrite Htable. apply record_futures_dom. by apply Forall_forall. }
    destruct (decide (sym bsym = RETURN)) as [Hsym | Hsym].
    + apply (visit_one_return (λ name, future_of name issued)) in Hvisit
        as (w1 & rets & out & -> & Hlen & Hslots); [| done |].
      * eapply IH in Hrun as (new & Hemitted & Hnew); [| exact Htable | done].
        simpl in Hemitted. eexists. split.
        -- rewrite Hemitted, <- !app_assoc. reflexivity.
        -- simpl. by constructor.
      * intros name fut Hfut. rewrite Htable in Hfut.
        by eapply swept_table_lookup.
    + apply visit_one_operation in Hvisit as (w1 & o & Hlen & Ho & ->); [| done..].
      eapply (IH _ _ _ (issued ++ zip (tracked_outputs gradients bsym) o))
        in Hrun as (new & Hemitted & Hnew); simpl.
      * simpl in Hemitted. eexists. split.
        -- rewrite Hemitted, <- app_assoc. reflexivity.
        -- simpl. by constructor.
      * by rewrite Htable, record_futures_app.
      * intros p [Hp | Hp]%elem_of_app; [by apply Hissued |].
        destruct (proj1 (Forall_forall _ _)
                    (tracked_issued_in_dom bsym o _ Hdom) p Hp) as (n & Hn & Hin).
        exists n. split; [done |]. by rewrite <- Hdom.
Qed.

(** Where the old trace ends in a return, the new one ends in the waits
    and the new return. *)
Lemma rewritten_ends_in_return (ret : BoundSymbol) (body : list BoundSymbol) :
  sym ret = RETURN →
  ∀ issued new,
    rewritten world_size pg gradients issued (body ++ [ret]) new →
    ∃ front issued' rets out,
      new = front ++ waits_of issued' gradients rets ++ [bsym_of RETURN rets ∅ out]
      ∧ length rets = length gradients
      ∧ ∀ (i : nat) (grad : value), gradients !! i = Some grad →
          is_TensorProxy grad = false → rets !! i = Some (Leaf VNone).
Proof.
  intros Hsym. induction body as [|bsym body IH]; intros issued new Hnew; simpl in Hnew.
  - inversion Hnew as [| ? ? ? ? ? Hop | ? ? ? rets out new' _ Hlen Hslots Hrest];
      subst; [done |].
    inversion Hrest; subst. by exists [], issued, rets, out.
  - inversion Hnew as [| ? ? ? outs new' _ _ Hrest | ? ? ? rets out new' _ _ _ Hrest];
      subst.
    + apply IH in Hrest as (front & issued' & rets & out & -> & Hlen & Hslots).
      exists (bsym :: communications world_size pg (tracked_outputs gradients bsym) outs
              ++ front), issued', rets, out.
      split; [| done]. simpl. by rewrite <- app_assoc.
    + apply IH in Hrest as (front & issued' & rets' & out' & -> & Hlen & Hslots).
      exists (waits_of issued gradients rets ++ bsym_of RETURN rets ∅ out :: front),
        issued', rets', out'.
      split; [| done]. by rewrite <- app_assoc.
Qed.

Lemma issued_traced (body : list BoundSymbol) (outs : list (list (pytree * pytree))) :
  Forall2 (λ bsym o, length o = length (tracked_outputs gradients bsym)
                     ∧ Forall traced_future o) body outs →
  ∀ p, p ∈ concat (zip_with (λ bsym o, zip (tracked_outputs gradients bsym) o) body outs) →
       traced_future p.2
       ∧ ∃ name, proxy_name p.1 = Some name
                 ∧ name ∈ dom (init_grad_to_future gradients).
Proof.
  induction 1 as [|bsym o body outs [Hlen Ho] _ IH]; intros p Hp; simpl in Hp.
  - by apply elem_of_nil in Hp.
  - apply elem_of_app in Hp as [Hp | Hp]; [| by apply IH].
    destruct p as [v q]. split.
    + apply elem_of_zip_r in Hp. by apply (proj1 (Forall_forall _ _) Ho).
    + apply elem_of_zip_l, tracked_outputs_spec in Hp as (_ & name & rg & -> & Hin).
      by exists name.
Qed.

Lemma issued_covers (body : list BoundSymbol) (outs : list (list (pytree * pytree))) :
  Forall2 (λ bsym o, length o = length (tracked_outputs gradients bsym)
                     ∧ Forall traced_future o) body outs →
  ∀ bsym v, bsym ∈ body → v ∈ tracked_outputs gradients bsym →
    ∃ q, (v, q) ∈ concat (zip_with (λ bsym o, zip (tracked_outputs gradients bsym) o)
                            body outs).
Proof.
  induction 1 as [|b o body outs [Hlen Ho] _ IH]; intros bsym v Hin Hv.
  - by apply elem_of_nil in Hin.
  - apply elem_of_cons in Hin as [-> | Hin].
    + apply list_elem_of_lookup_1 in Hv as [i Hi].
      destruct (lookup_lt_is_Some_2 o i) as [q Hq].
      { rewrite Hlen. by eapply lookup_lt_Some. }
      exists q. simpl. apply elem_of_app. left.
      apply (list_elem_of_lookup_2 _ i). by rewrite lookup_zip_with, Hi, Hq.
    + destruct (IH bsym v Hin Hv) as [q Hq]. exists q. simpl.
      apply elem_of_app. by right.
Qed.

Lemma future_of_issued (issued : list (value * (pytree * pytree))) (name : string)
    (p : value * (pytree * pytree)) :
  p ∈ issued → proxy_name p.1 = Some name →
  ∃ q, q ∈ issued ∧ future_of name issued = q.2.2.
Proof.
  intros Hp Hname. unfold future_of.
  destruct (last (filter _ issued)) as [q|] eqn:Hlast.
  - exists q. split; [| done].
    apply last_Some in Hlast as [l Hl].
    assert (q ∈ filter (λ p0 : value * (pytree * pytree), proxy_name p0.1 = Some name)
                  issued) as Hq.
    { rewrite Hl. apply elem_of_app. right. apply list_elem_of_here. }
    by apply list_elem_of_filter in Hq as [_ Hq].
  - apply last_None in Hlast.
    assert (p ∈ filter (λ p0 : value * (pytree * pytree), proxy_name p0.1 = Some name)
                  issued) as Hin by by apply list_elem_of_filter.
    rewrite Hlast in Hin. by apply elem_of_nil in Hin.
Qed.

End allreduce_facts.

Section allreduce_total.
Import torch_autograd.
Context {W : Type} {E : Externals W}.
Variables (world_size : value) (pg : ProcessGroup) (gradients : list value).

(** Tracing accepts the calls the rewrite makes: the division of a
    tensor by the world size, the all-reduce of anything, which gives a
    future, the wait on a future, and the return. *)
Hypothesis divide_traces :
  ∀ name rg (w : W),
    ∃ q w', meta TRUE_DIVIDE [Leaf (VTensorProxy name rg); Leaf world_size] ∅ w
            = (Ok q, w').
Hypothesis all_reduce_traces :
  ∀ q (w : W),
    ∃ fname w', meta ALL_REDUCE [q] (all_reduce_kwargs pg) w
                = (Ok (Leaf (VFutureTensorProxy fname)), w').
Hypothesis wait_traces :
  ∀ fname (w : W),
    ∃ x w', meta WAIT [Leaf (VFutureTensorProxy fname)] ∅ w = (Ok x, w').
Hypothesis return_traces :
  ∀ rets (w : W), ∃ out w', meta RETURN rets ∅ w = (Ok out, w').

Lemma forM__app_run {S A} (f : A → M S unit) (l1 l2 : list A) (s s1 s2 : S) :
  forM_ f l1 s = (Ok (), s1) → forM_ f l2 s1 = (Ok (), s2) →
  forM_ f (l1 ++ l2) s = (Ok (), s2).
Proof.
  revert s. induction l1 as [|a l1 IH]; intros s; simpl.
  - by intros [= <-].
  - intros ([] & s0 & Ha & Hrest)%bind_ok H2.
    rewrite (bind_run _ _ _ _ _ Ha). by apply IH.
Qed.

Lemma call_symbol_run id a kw (w w' : W) (t : tracer) out :
  meta id a kw w = (Ok out, w') →
  ∃ t', call_symbol id a kw (w, t) = (Ok out, (w', t'))
        ∧ grad_to_future t' = grad_to_future t.
Proof.
  intros Hmeta. eexists. unfold call_symbol.
  erewrite bind_run; [| unfold lift; simpl; by rewrite Hmeta]. split; reflexivity.
Qed.

Lemma allreduce_grad_total name rg (w : W) (t : tracer) :
  ∃ s', allreduce_grad world_size pg (VTensorProxy name rg) (w, t) = (Ok (), s').
Proof.
  unfold allreduce_grad.
  destruct (divide_traces name rg w) as (q & w1 & Hdiv).
  destruct (call_symbol_run _ _ _ _ _ t _ Hdiv) as (t1 & Hdiv' & _).
  destruct (all_reduce_traces q w1) as (fname & w2 & Har).
  destruct (call_symbol_run _ _ _ _ _ t1 _ Har) as (t2 & Har' & _).
  eexists. erewrite bind_run by exact Hdiv'. erewrite bind_run by exact Har'.
  reflexivity.
Qed.

Lemma forM__allreduce_grad_total (gs : list value) :
  Forall (λ g, is_TensorProxy g = true) gs →
  ∀ (w : W) (t : tracer),
    ∃ s', forM_ (allreduce_grad world_size pg) gs (w, t) = (Ok (), s').
Proof.
  induction 1 as [|g gs Hg _ IH]; intros w t; simpl.
  - by eexists.
  - destruct g; try discriminate.
    destruct (allreduce_grad_total name requires_grad w t) as ([w1 t1] & Hrun).
    destruct (IH w1 t1) as (s' & Hrest). exists s'.
    by erewrite bind_run by exact Hrun.
Qed.

Lemma visit_one_operation_total (bsym : BoundSymbol) (w : W) (t : tracer) :
  sym bsym ≠ RETURN →
  ∃ s', visit_one (visit gradients world_size pg) bsym (w, t) = (Ok (), s').
Proof.
  intros Hsym. unfold visit_one, visit.
  rewrite bool_decide_eq_false_2 by done.
  set (gs := filter (λ v, is_tracked_grad (grad_to_future t) v = true) (_flat_outs bsym)).
  destruct (forM__allreduce_grad_total gs) with (w := w)
    (t := {| emitted := emitted t; scope := []; grad_to_future := grad_to_future t |})
    as ([w1 t1] & Hfor).
  { apply Forall_forall. intros g [Htracked _]%list_elem_of_filter.
    by apply andb_true_iff in Htracked as [? _]. }
  unfold mbind, M_bind, get_own, put_own, mret, M_ret. simpl. fold gs.
  case_bool_decide; [by eexists |].
  unfold mbind, M_bind in Hfor. rewrite Hfor. by eexists.
Qed.

Lemma visit_operations_total (body : list BoundSymbol) :
  Forall (λ bsym, sym bsym ≠ RETURN) body →
  ∀ (w : W) (t : tracer),
    ∃ s', forM_ (visit_one (visit gradients world_size pg)) body (w, t) = (Ok (), s').
Proof.
  induction 1 as [|bsym body Hsym _ IH]; intros w t; simpl.
  - by eexists.
  - destruct (visit_one_operation_total bsym w t Hsym) as ([w1 t1] & Hrun).
    destruct (IH w1 t1) as (s' & Hrest). exists s'.
    by erewrite bind_run by exact Hrun.
Qed.

Lemma mapM_wait_or_none_total (grads : list value) :
  ∀ (w : W) (t : tracer),
    (∀ name rg, VTensorProxy name rg ∈ grads →
       ∃ fname, grad_to_future t !! name = Some (Leaf (VFutureTensorProxy fname))) →
    ∃ rets s', mapM wait_or_none grads (w, t) = (Ok rets, s').
Proof.
  induction grads as [|grad grads IH]; intros w t Htable; simpl.
  - by eexists _, _.
  - assert (∃ x w1 t1, wait_or_none grad (w, t) = (Ok x, (w1, t1))
                       ∧ grad_to_future t1 = grad_to_future t)
      as (x & w1 & t1 & Hx & Hsame).
    { unfold wait_or_none. destruct grad; simpl; try (by eexists _, _, _).
      destruct (Htable name requires_grad) as [fname Hfut]; [apply list_elem_of_here |].
      destruct (wait_traces fname w) as (x & w1 & Hwait).
      destruct (call_symbol_run _ _ _ _ _ t _ Hwait) as (t1 & Hcall & Hsame).
      exists x, w1, t1. split; [| done].
      unfold get_future, mbind, M_bind, get_own. simpl. by rewrite Hfut. }
    destruct (IH w1 t1) as (xs & s' & Hxs).
    { intros name rg Hin. rewrite Hsame. eapply Htable.
      by apply list_elem_of_further. }
    exists (x :: xs), s'. erewrite bind_run by exact Hx.
    by erewrite bind_run by exact Hxs.
Qed.

Lemma visit_one_return_total (ret : BoundSymbol) (w : W) (t : tracer) :
  sym ret = RETURN →
  (∀ name rg, VTensorProxy name rg ∈ gradients →
     ∃ fname, grad_to_future t !! name = Some (Leaf (VFutureTensorProxy fname))) →
  ∃ s', visit_one (visit gradients world_size pg) ret (w, t) = (Ok (), s').
Proof.
  intros Hsym Htable. unfold visit_one, visit.
  rewrite bool_decide_eq_true_2 by done.
  destruct (mapM_wait_or_none_total gradients w
              {| emitted := emitted t; scope := []; grad_to_future := grad_to_future t |}
              Htable) as (rets & [w1 t1] & Hwaits).
  destruct (return_traces rets w1) as (out & w2 & Hret).
  destruct (call_symbol_run _ _ _ _ _ t1 _ Hret) as (t2 & Hret' & _).
  eexists. unfold mbind at 1 2, M_bind at 1 2, get_own, put_own. simpl.
  erewrite (bind_run (mapM _ _ ≫= _)); [reflexivity |].
  erewrite bind_run by exact Hwaits. erewrite bind_run by exact Hret'. reflexivity.
Qed.

End allreduce_total.

Section allreduce_theorem.
Import torch_autograd.
Context {W : Type} {E : Externals W}.

(** C1, amended: take a backward trace and a process group of size N.
    Whenever the rewrite returns, the operations of the new trace are
    those of the old one rewritten in one sweep: every operation other
    than a return stays in place and is followed directly by a division
    by [float(N)] and an asynchronous all-reduce over the group for each
    of its outputs that is a tensor gradient of the flattened output; the
    return is replaced by one wait for each tensor gradient, in order, on
    the future of the last all-reduce issued for it (on the placeholder
    [True] if none was), and by a return with one slot per flattened
    gradient: the result of its wait for a tensor gradient, [None] for
    anything else.  And the rewrite does return on a trace whose last
    operation is its only return when every tensor gradient is an output
    of an operation before it and tracing accepts the calls made: the
    division of a tensor by the float, the all-reduce, giving a future,
    the wait on a future, and the return. *)
Theorem allreduce_rewrite_waits_on_futures
    (backward_trace : TraceCtx) (process_group : option ProcessGroup)
    (pg : ProcessGroup) (w w0 : W) :
  let gradients := tree_flatten (trace_output backward_trace) in
  let world_size := VFloat (pg_size pg) in
  match process_group with
  | Some group => (Ok group, w)
  | None => _get_default_group w
  end = (Ok pg, w0) →
  (∀ (trace' : TraceCtx) (w' : W),
     insert_bsym_to_allreduce_grads backward_trace process_group w = (Ok trace', w') →
     rewritten world_size pg gradients []
       (bound_symbols backward_trace) (bound_symbols trace'))
  ∧ (∀ (body : list BoundSymbol) (ret : BoundSymbol),
       bound_symbols backward_trace = body ++ [ret] →
       sym ret = RETURN →
       Forall (λ bsym, sym bsym ≠ RETURN) body →
       (∀ name rg, VTensorProxy name rg ∈ gradients → produced_by body name) →
       (∀ name rg (w1 : W),
          ∃ q w2, meta TRUE_DIVIDE [Leaf (VTensorProxy name rg); Leaf world_size] ∅ w1
                  = (Ok q, w2)) →
       (∀ q (w1 : W),
          ∃ fname w2, meta ALL_REDUCE [q] (all_reduce_kwargs pg) w1
                      = (Ok (Leaf (VFutureTensorProxy fname)), w2)) →
       (∀ fname (w1 : W),
          ∃ x w2, meta WAIT [Leaf (VFutureTensorProxy fname)] ∅ w1 = (Ok x, w2)) →
       (∀ rets (w1 : W), ∃ out w2, meta RETURN rets ∅ w1 = (Ok out, w2)) →
       ∃ (trace' : TraceCtx) (w' : W),
         insert_bsym_to_allreduce_grads backward_trace process_group w
         = (Ok trace', w')).
Proof.
  intros gradients world_size Hgroup.
  assert (match process_group with
          | Some pg => mret pg
          | None => _get_default_group
          end w = (Ok pg, w0)) as Hgroup'.
  { by destruct process_group. }
  set (start := {| emitted := []; scope := [];
                   grad_to_future := init_grad_to_future gradients |}).
  split.
  - intros trace' w' Hrun.
    unfold insert_bsym_to_allreduce_grads in Hrun.
    rewrite (bind_run _ _ _ _ _ Hgroup') in Hrun.
    fold gradients world_size start in Hrun. unfold run_own in Hrun.
    destruct (visitor_transform _ _ _) as [r [w1 t1]] eqn:Hvisit in Hrun.
    simpl in Hrun. injection Hrun as -> <-.
    unfold visitor_transform in Hvisit.
    apply bind_ok in Hvisit as ([] & [w2 t2] & Hsweep & [= <- <- ->]).
    apply (visit_all _ _ _ _ _ _ _ []) in Hsweep as (new & Hemitted & Hnew).
    + simpl in *. by rewrite Hemitted.
    + done.
    + intros p Hp. by apply elem_of_nil in Hp.
  - intros body ret Hbody Hsym Hkinds Hproduced Hdiv Har Hwait Hret.
    destruct (visit_operations_total world_size pg gradients Hdiv Har
                body Hkinds w0 start) as ([w1 t1] & Hsweep).
    pose proof Hsweep as Hshape.
    apply visit_operations in Hshape as (w1' & outs & Houts & [= <- Ht1]); [| done..].
    set (issued := concat (zip_with (λ bsym o, zip (tracked_outputs gradients bsym) o)
                             body outs)) in *.
    destruct (visit_one_return_total world_size pg gradients Hwait Hret ret w1 t1 Hsym)
      as ([w2 t2] & Hlast).
    { rewrite Ht1. unfold start. simpl. intros name rg Hin.
      assert (name ∈ dom (init_grad_to_future gradients)) as Hdom
        by by eapply init_grad_to_future_dom.
      pose proof Hdom as [x Hx]%elem_of_dom.
      rewrite (record_futures_lookup _ _ _ x Hx).
      destruct (Hproduced name rg Hin) as (bsym & rg' & Hbsym & Hout).
      destruct (issued_covers _ _ _ _ Houts bsym (VTensorProxy name rg') Hbsym)
        as [q Hq].
      { apply tracked_outputs_spec. eauto. }
      destruct (future_of_issued issued name _ Hq eq_refl) as (p & Hp & Hfuture).
      unfold future_of in Hfuture.
      destruct (last (filter _ issued)) as [p'|] eqn:Hlast'.
      - rewrite Hfuture.
        destruct (issued_traced _ _ _ _ Houts p Hp) as [(w3 & w4 & Hmeta) _].
        destruct (Har p.2.1 w3) as (fname & w5 & Hfut).
        rewrite Hfut in Hmeta. injection Hmeta as <- _. eauto.
      - apply last_None in Hlast'.
        assert ((VTensorProxy name rg', q)
                ∈ filter (λ p0 : value * (pytree * pytree), proxy_name p0.1 = Some name)
                    issued) as Hin' by by apply list_elem_of_filter.
        rewrite Hlast' in Hin'. by apply elem_of_nil in Hin'. }
    assert (forM_ (visit_one (visit gradients world_size pg))
              (bound_symbols backward_trace) (w0, start) = (Ok (), (w2, t2))) as Hall.
    { rewrite Hbody. eapply forM__app_run; [exact Hsweep |].
      simpl. by rewrite (bind_run _ _ _ _ _ Hlast). }
    eexists _, w2. unfold insert_bsym_to_allreduce_grads.
    rewrite (bind_run _ _ _ _ _ Hgroup'). fold gradients world_size start.
    unfold run_own, visitor_transform.
    rewrite (bind_run _ _ _ _ _ Hall). reflexivity.
Qed.

End allreduce_theorem.

Section allreduce_runs.
Import torch_autograd.

(** C1 as stated does not hold: a backward trace returning two gradient
    tensors and the integer 3, rewritten for a group of size 4, gets a
    return whose third slot is [None]; the integer does not pass through. *)
Lemma allreduce_rewrite_drops_non_tensor_slot :
  ∃ (trace' : TraceCtx) (log : list string) (ret' : BoundSymbol),
    insert_bsym_to_allreduce_grads sample.bw_with_int (Some sample.group4) []
    = (Ok trace', log)
    ∧ tree_flatten (trace_output sample.bw_with_int) !! 2%nat = Some (VInt 3)
    ∧ last (bound_symbols trace') = Some ret'
    ∧ sym ret' = RETURN
    ∧ args ret' !! 2%nat = Some (Leaf VNone)
    ∧ args ret' !! 2%nat ≠ Some (Leaf (VInt 3)).
Proof.
  destruct (insert_bsym_to_allreduce_grads sample.bw_with_int (Some sample.group4) [])
    as [[trace'|e] log] eqn:Hrun; [| vm_compute in Hrun; discriminate].
  exists trace', log. vm_compute in Hrun. injection Hrun as <- <-.
  eexists. split; [reflexivity |]. split; [reflexivity |].
  split; [reflexivity |]. split; [reflexivity |]. split; [reflexivity |].
  discriminate.
Qed.

Lemma allreduce_rewrite_waits_on_futures_witness :
  ∃ (trace' : TraceCtx) (log : list string) (front : list BoundSymbol)
    (issued : list (value * (pytree * pytree))) (rets : list pytree) (out : pytree),
    let gradients := tree_flatten (trace_output sample.bw) in
    insert_bsym_to_allreduce_grads sample.bw (Some sample.group4) [] = (Ok trace', log)
    ∧ rewritten (VFloat 4) sample.group4 gradients []
        (bound_symbols sample.bw) (bound_symbols trace')
    ∧ bound_symbols trace'
      = front ++ waits_of issued gradients rets ++ [bsym_of RETURN rets ∅ out]
    ∧ length rets = 3%nat
    ∧ rets !! 2%nat = Some (Leaf VNone).
Proof.
  destruct (allreduce_rewrite_waits_on_futures sample.bw (Some sample.group4)
              sample.group4 [] []) as [Hshape Hreturns]; [reflexivity |].
  destruct (Hreturns
              (take 7 (bound_symbols sample.bw))
              (bsym_of RETURN [Node [sample.t "ga"; sample.t "gb"; Leaf VNone]] ∅
                 (Leaf VNone))) as (trace' & log & Hrun).
  - reflexivity.
  - reflexivity.
  - repeat (apply Forall_cons; split; [discriminate |]). apply Forall_nil_2.
  - intros name rg Hin. cbn in Hin.
    apply elem_of_cons in Hin as [[= -> _] | Hin].
    { exists (bsym_of (OTHER_SYM "mul") [sample.t "g"; sample.t "b"] ∅ (sample.t "ga")),
             false.
      split; [| apply list_elem_of_here].
      apply (list_elem_of_lookup_2 _ 5%nat). reflexivity. }
    apply elem_of_cons in Hin as [[= -> _] | Hin].
    { exists (bsym_of (OTHER_SYM "mul") [sample.t "g"; sample.t "a"] ∅ (sample.t "gb")),
             false.
      split; [| apply list_elem_of_here].
      apply (list_elem_of_lookup_2 _ 6%nat). reflexivity. }
    apply elem_of_cons in Hin as [[=] | Hin].
    apply elem_of_nil in Hin. destruct Hin.
  - intros name rg w1. eexists _, _. reflexivity.
  - intros q w1. eexists _, _. reflexivity.
  - intros fname w1. eexists _, _. reflexivity.
  - intros rets w1. eexists _, _. reflexivity.
  - pose proof (Hshape trace' log Hrun) as Hnew.
    destruct (rewritten_ends_in_return (VFloat 4) sample.group4
                (tree_flatten (trace_output sample.bw))
                (bsym_of RETURN [Node [sample.t "ga"; sample.t "gb"; Leaf VNone]] ∅
                   (Leaf VNone))
                (take 7 (bound_symbols sample.bw)) eq_refl [] _ Hnew)
      as (front & issued & rets & out & Hbsyms & Hlen & Hslots).
    exists trace', log, front, issued, rets, out. cbv zeta.
    split; [exact Hrun |]. split; [exact Hnew |]. split; [exact Hbsyms |].
    split; [exact Hlen | exact (Hslots 2%nat VNone eq_refl eq_refl)].
Defined.

End allreduce_runs.

(** ** More on stack effects *)

Section stack_effect_use_facts.
Import python_ir_data stack_effect_use.

Lemma computed_stack_effect_known (opname : string) (oparg : Z) (jump : bool) :
  opname ∈ computed_opnames →
  ∃ effect, computed_stack_effect opname oparg jump = Ok effect.
Proof.
  intros Hin. unfold computed_stack_effect.
  repeat case_bool_decide; try destruct jump;
    try destruct (negb (Z.land oparg 4 =? 0)); eauto.
  all: exfalso; unfold computed_opnames in Hin;
    rewrite !elem_of_union, !elem_of_singleton in *; intuition congruence.
Qed.

(** X1: [stack_effect_detail] returns a pair exactly for the keys of the
    fixed table and the names of the [elif] chain, whatever the operand
    and the jump flag. *)
Theorem stack_effect_detail_domain (opname : string) (oparg : Z) (jump : bool) :
  (∃ effect, stack_effect_detail opname oparg jump = Ok effect)
  ↔ opname ∈ dom fixed_stack_effects_detail ∨ opname ∈ computed_opnames.
Proof.
  unfold stack_effect_detail. split.
  - intros [effect Heffect].
    destruct (fixed_stack_effects_detail !! opname) as [e|] eqn:Hfixed.
    + left. apply elem_of_dom. eauto.
    + right. destruct (decide (opname ∈ computed_opnames)) as [|Hnot]; [done |].
      by rewrite computed_stack_effect_unknown in Heffect.
  - intros [[e He]%elem_of_dom | Hin].
    + rewrite He. eauto.
    + destruct (fixed_stack_effects_detail !! opname); [eauto |].
      by apply computed_stack_effect_known.
Qed.

(** X2: the jump flag changes the outcome only for the five branching
    instructions of the chain. *)
Theorem jump_flag_matters_only_when_branching
    (opname : string) (oparg : Z) (jump1 jump2 : bool) :
  opname ∉ jump_sensitive_opnames →
  stack_effect_detail opname oparg jump1 = stack_effect_detail opname oparg jump2.
Proof.
  intros Hnot. unfold stack_effect_detail.
  destruct (fixed_stack_effects_detail !! opname); [done |].
  unfold jump_sensitive_opnames in Hnot.
  rewrite !not_elem_of_union, !not_elem_of_singleton in Hnot. destruct_and!.
  unfold computed_stack_effect.
  repeat case_bool_decide; try reflexivity; exfalso; try congruence.
  rewrite !elem_of_union, !elem_of_singleton in *. intuition congruence.
Qed.

Lemma jump_flag_matters_only_when_branching_witness :
  stack_effect_detail "CALL_METHOD" 3 true = stack_effect_detail "CALL_METHOD" 3 false.
Proof.
  apply jump_flag_matters_only_when_branching.
  apply (bool_decide_eq_false_1 _). vm_compute. reflexivity.
Defined.

(** X3: the operand changes the outcome only for the seventeen
    instructions whose rule reads it; for every other name, known or not,
    two operands give the same pair or the same error. *)
Theorem operand_matters_only_for_operand_rules
    (opname : string) (oparg1 oparg2 : Z) (jump : bool) :
  opname ∉ operand_sensitive_opnames →
  stack_effect_detail opname oparg1 jump = stack_effect_detail opname oparg2 jump.
Proof.
  intros Hnot. unfold stack_effect_detail.
  destruct (fixed_stack_effects_detail !! opname); [done |].
  unfold operand_sensitive_opnames in Hnot.
  rewrite !not_elem_of_union, !not_elem_of_singleton in Hnot. destruct_and!.
  unfold computed_stack_effect.
  repeat case_bool_decide; try reflexivity; exfalso; try congruence.
  rewrite !elem_of_union, !elem_of_singleton in *. intuition congruence.
Qed.

Lemma operand_matters_only_for_operand_rules_witness :
  stack_effect_detail "FOR_ITER" 7 true = stack_effect_detail "FOR_ITER" (-1) true.
Proof.
  apply operand_matters_only_for_operand_rules.
  apply (bool_decide_eq_false_1 _). vm_compute. reflexivity.
Defined.

Lemma nonzero_le_1 x : 0 ≤ nonzero x ≤ 1.
Proof. unfold nonzero. destruct (negb _); simpl; lia. Qed.

(** X4: for every operand, negative ones included, the flag-driven rules
    stay within their bounds: CALL_FUNCTION_EX pops 2 or 3 values,
    MAKE_FUNCTION between 2 and 6, FORMAT_VALUE 1 or 2, and each pushes
    exactly one. *)
Theorem flag_rules_bounds (oparg : Z) (jump : bool) :
  (∃ pop, stack_effect_detail "CALL_FUNCTION_EX" oparg jump = Ok (pop, 1)
          ∧ 2 ≤ pop ≤ 3)
  ∧ (∃ pop, stack_effect_detail "MAKE_FUNCTION" oparg jump = Ok (pop, 1)
            ∧ 2 ≤ pop ≤ 6)
  ∧ (∃ pop, stack_effect_detail "FORMAT_VALUE" oparg jump = Ok (pop, 1)
            ∧ 1 ≤ pop ≤ 2).
Proof.
  pose proof (nonzero_le_1 (Z.land oparg 1)).
  pose proof (nonzero_le_1 (Z.land oparg 2)).
  pose proof (nonzero_le_1 (Z.land oparg 4)).
  pose proof (nonzero_le_1 (Z.land oparg 8)).
  split; [| split].
  - eexists. split; [reflexivity | lia].
  - eexists. split; [reflexivity | lia].
  - destruct (negb (Z.land oparg 4 =? 0)) eqn:Hbit.
    + exists 2. split; [| lia].
      change (stack_effect_detail "FORMAT_VALUE" oparg jump)
        with (if negb (Z.land oparg 4 =? 0)
              then Ok (A := Z * Z) (2, 1) else Ok (1, 1)).
      by rewrite Hbit.
    + exists 1. split; [| lia].
      change (stack_effect_detail "FORMAT_VALUE" oparg jump)
        with (if negb (Z.land oparg 4 =? 0)
              then Ok (A := Z * Z) (2, 1) else Ok (1, 1)).
      by rewrite Hbit.
Qed.

(** X5: UNPACK_EX decodes its operand: with the count before the star in
    the low byte and the count after it above, it pops the sequence and
    pushes both counts plus the starred list. *)
Theorem unpack_ex_decodes_counts (before after : Z) (jump : bool) :
  0 ≤ before < 256 →
  stack_effect_detail "UNPACK_EX" (after * 256 + before) jump
  = Ok (1, before + after + 1).
Proof.
  intros Hbefore.
  replace (after * 256 + before) with (before + after * 256) by lia.
  change (stack_effect_detail "UNPACK_EX" (before + after * 256) jump)
    with (Ok (A := Z * Z)
            (1, Z.land (before + after * 256) 255
                + Z.shiftr (before + after * 256) 8 + 1)).
  change 255 with (Z.ones 8). rewrite Z.land_ones by lia.
  rewrite Z.shiftr_div_pow2 by lia. change (2 ^ 8) with 256.
  rewrite Z.mod_add, Z.div_add by lia.
  rewrite Z.mod_small, Z.div_small by lia.
  do 2 f_equal. all: lia.
Qed.

Lemma unpack_ex_decodes_counts_witness :
  stack_effect_detail "UNPACK_EX" (2 * 256 + 3) false = Ok (1, 3 + 2 + 1).
Proof. apply unpack_ex_decodes_counts. lia. Defined.

Lemma land_land_mask (a mask bit : Z) :
  Z.land mask bit = bit → Z.land (Z.land a mask) bit = Z.land a bit.
Proof. intros H. by rewrite <- Z.land_assoc, H. Qed.

(** X6: the flag-driven rules look at their own bits only: MAKE_FUNCTION
    at the low four bits of the operand, CALL_FUNCTION_EX at bit 0,
    FORMAT_VALUE at bit 2. *)
Theorem flag_rules_ignore_other_bits (oparg : Z) (jump : bool) :
  stack_effect_detail "MAKE_FUNCTION" oparg jump
  = stack_effect_detail "MAKE_FUNCTION" (Z.land oparg 15) jump
  ∧ stack_effect_detail "CALL_FUNCTION_EX" oparg jump
    = stack_effect_detail "CALL_FUNCTION_EX" (Z.land oparg 1) jump
  ∧ stack_effect_detail "FORMAT_VALUE" oparg jump
    = stack_effect_detail "FORMAT_VALUE" (Z.land oparg 4) jump.
Proof.
  split; [| split].
  - change (Ok (A := Z * Z)
              (2 + nonzero (Z.land oparg 1) + nonzero (Z.land oparg 2)
               + nonzero (Z.land oparg 4) + nonzero (Z.land oparg 8), 1)
            = Ok (2 + nonzero (Z.land (Z.land oparg 15) 1)
                  + nonzero (Z.land (Z.land oparg 15) 2)
                  + nonzero (Z.land (Z.land oparg 15) 4)
                  + nonzero (Z.land (Z.land oparg 15) 8), 1)).
    by rewrite !land_land_mask.
  - change (Ok (A := Z * Z) (2 + nonzero (Z.land oparg 1), 1)
            = Ok (2 + nonzero (Z.land (Z.land oparg 1) 1), 1)).
    by rewrite land_land_mask.
  - change ((if negb (Z.land oparg 4 =? 0)
             then Ok (A := Z * Z) (2, 1) else Ok (1, 1))
            = (if negb (Z.land (Z.land oparg 4) 4 =? 0)
               then Ok (2, 1) else Ok (1, 1))).
    by rewrite land_land_mask.
Qed.

End stack_effect_use_facts.

(** ** More on the forward/backward split *)

Section split_more.
Import torch_autograd.
Context {W : Type} {E : Externals W}.

Lemma any_true_of_some_grad (flat_args : list value) (v : value) :
  v ∈ flat_args → tensor_requires_grad v = true →
  existsb id (tensor_requires_grad <$> flat_args) = true.
Proof.
  induction flat_args as [|a l IH]; intros Hin Hv.
  - by apply elem_of_nil in Hin.
  - apply elem_of_cons in Hin as [<- | Hin].
    + simpl. by rewrite Hv.
    + simpl. destruct (tensor_requires_grad a); [done |]. by apply IH.
Qed.

(** X7: one flattened leaf that is a tensor requiring a gradient, however
    deep it sits in the bound arguments, is enough for the check of lines
    43-48 to pass; the check then hands on the bound arguments and one
    flag per leaf, and has touched nothing. *)
Theorem bind_and_check_passes
    (call_args ba : pytree) (v : value) (s : W * option CompileStats) :
  sig_bind call_args = Ok ba →
  v ∈ tree_flatten ba →
  tensor_requires_grad v = true →
  bind_and_check call_args s
  = (Ok (ba, tensor_requires_grad <$> tree_flatten ba), s)
  ∧ length (tensor_requires_grad <$> tree_flatten ba) = length (tree_flatten ba).
Proof.
  intros Hbind Hin Hv. split; [| apply length_fmap].
  unfold bind_and_check.
  rewrite (bind_run _ _ s ba s) by (unfold of_result; by rewrite Hbind).
  by rewrite (any_true_of_some_grad _ v).
Qed.

Lemma keep_or_none_idemp (grads : list pytree) (mask : list bool) :
  zip_with (λ (g : pytree) (rg : bool), if rg then g else Leaf VNone)
    (zip_with (λ (g : pytree) (rg : bool), if rg then g else Leaf VNone) grads mask)
    mask
  = zip_with (λ (g : pytree) (rg : bool), if rg then g else Leaf VNone) grads mask.
Proof.
  revert mask. induction grads as [|g grads IH]; intros [|rg mask]; simpl; [done.. |].
  rewrite IH. by destruct rg.
Qed.

Lemma filter_input_grads_run (bw_trace : TraceCtx) (mask : list bool)
    (body : list BoundSymbol) (ret : BoundSymbol) (grads rest : list pytree) :
  bound_symbols bw_trace = body ++ [ret] →
  sym ret = RETURN →
  args ret = Node grads :: rest →
  length grads = length mask →
  filter_input_grads bw_trace mask
  = Ok (set_bound_symbols bw_trace
          (body ++ [replace_args ret
                      [Node (zip_with (λ (g : pytree) (rg : bool),
                                         if rg then g else Leaf VNone) grads mask)]])).
Proof.
  intros Hbody Hsym Hargs Hlen.
  destruct (filter_input_grads_total bw_trace mask body ret grads rest)
    as [bw' Hrun]; [done.. |].
  rewrite Hrun. f_equal.
  apply filter_input_grads_ok in Hrun
    as (body' & ret' & grads' & Hbody' & _ & Hargs' & _ & ->).
  rewrite Hbody in Hbody'. apply app_inj_tail in Hbody' as [<- <-].
  rewrite Hargs in Hargs'. by injection Hargs' as <-.
Qed.

(** X8: filtering the gradients of the backward return is idempotent:
    applied with the same flags to its own result it changes nothing. *)
Theorem filter_input_grads_idempotent
    (bw_trace bw_trace' : TraceCtx) (mask : list bool) :
  filter_input_grads bw_trace mask = Ok bw_trace' →
  filter_input_grads bw_trace' mask = Ok bw_trace'.
Proof.
  intros (body & ret & grads & Hbody & Hsym & Hargs & Hlen & ->)%filter_input_grads_ok.
  erewrite filter_input_grads_run; [| reflexivity | exact Hsym | reflexivity |].
  - unfold set_bound_symbols, replace_args. simpl. by rewrite keep_or_none_idemp.
  - rewrite length_zip_with. lia.
Qed.

(** X9: when every flattened input requires a gradient and the return
    holds the gradient tuple alone, the backward trace is left exactly as
    differentiation produced it. *)
Theorem filter_input_grads_keeps_all
    (bw_trace : TraceCtx) (body : list BoundSymbol) (ret : BoundSymbol)
    (grads : list pytree) :
  bound_symbols bw_trace = body ++ [ret] →
  sym ret = RETURN →
  args ret = [Node grads] →
  filter_input_grads bw_trace (replicate (length grads) true) = Ok bw_trace.
Proof.
  intros Hbody Hsym Hargs.
  erewrite filter_input_grads_run; [| done.. | by rewrite length_replicate].
  f_equal. destruct bw_trace as [bsyms targs tout]. unfold set_bound_symbols.
  simpl in *. f_equal. rewrite Hbody. f_equal. f_equal.
  destruct ret as [s a k o]. unfold replace_args. simpl in *. f_equal.
  rewrite Hargs. do 2 f_equal. clear.
  induction grads as [|g grads IH]; simpl; [done |]. by rewrite IH.
Qed.


Fixpoint pytree_eqb_refl (t : pytree) : pytree_eqb t t = true.
Proof.
  destruct t as [v | children]; simpl.
  - by apply bool_decide_eq_true_2.
  - induction children as [|c children IH]; [done |].
    rewrite pytree_eqb_refl. exact IH.
Qed.

Lemma variable_eqb_refl (x : variable) : variable_eqb x x = true.
Proof.
  destruct x; simpl; [by apply bool_decide_eq_true_2 | apply pytree_eqb_refl].
Qed.


(** X12: when optimisation keeps every saved tensor under its name (the
    variables agree position by position), nothing is swapped. *)
Theorem make_swap_map_unchanged (original new : list pytree) :
  Forall2 (λ x y, variableify x = variableify y) original new →
  make_swap_map original new = [].
Proof.
  unfold make_swap_map. induction 1 as [|x y xs ys Hxy _ IH]; [done |].
  simpl. rewrite filter_cons_False.
  - exact IH.
  - simpl. rewrite Hxy, variable_eqb_refl. discriminate.
Qed.

End split_more.

Section split_structure.
Import torch_autograd.
Context {W : Type} {E : Externals W}.

Lemma py_assert_ok {S} (b : bool) (s s' : S) (u : unit) :
  py_assert b s = (Ok u, s') → b = true ∧ s' = s.
Proof. destruct b; [by intros [= <-] | discriminate]. Qed.

(** X13: carrying the renamed saved tensors over succeeds only on a
    backward trace of the expected layout: its first bound symbol unpacks
    "saved_for_backward", its fifth unpacks the sequence whose first
    argument is the proxy "C0", and both traces expose their saved tensors
    as containers at [args[0][0]] and [output[1][0]].  When it succeeds,
    the declared arguments and output of the backward trace are kept. *)
Theorem patch_saved_tensors_layout
    (fw_extrace bw_trace bw_trace' : TraceCtx) (s s' : W * option CompileStats) :
  patch_saved_tensors fw_extrace bw_trace s = (Ok bw_trace', s') →
  ∃ (b0 b4 : BoundSymbol) (c0 : value) (original new : list pytree)
    (a0 o1 : pytree),
    bound_symbols bw_trace !! 0%nat = Some b0
    ∧ sym b0 = UNPACK_TRIVIAL
    ∧ kwargs b0 !! "name" = Some (VStr "saved_for_backward")
    ∧ bound_symbols bw_trace !! 4%nat = Some b4
    ∧ sym b4 = UNPACK_SEQUENCE
    ∧ args b4 !! 0%nat = Some (Leaf c0)
    ∧ proxy_name c0 = Some "C0"
    ∧ tree_index (trace_args bw_trace) 0 = Ok a0
    ∧ tree_index a0 0 = Ok (Node original)
    ∧ tree_index (trace_output fw_extrace) 1 = Ok o1
    ∧ tree_index o1 0 = Ok (Node new)
    ∧ trace_args bw_trace' = trace_args bw_trace
    ∧ trace_output bw_trace' = trace_output bw_trace.
Proof.
  unfold patch_saved_tensors.
  intros (original & s1 & Horig & Hrun)%bind_ok.
  apply of_result_ok in Horig as [Horig ->].
  apply result_bind_ok in Horig as (a0 & Ha0 & Horig).
  apply bind_ok in Hrun as (new & s1 & Hnew & Hrun).
  apply of_result_ok in Hnew as [Hnew ->].
  apply result_bind_ok in Hnew as (o1 & Ho1 & Hnew).
  apply bind_ok in Hrun as (xs & s1 & Hxs & Hrun).
  apply of_result_ok in Hxs as [Hxs ->].
  apply bind_ok in Hrun as (ys & s1 & Hys & Hrun).
  apply of_result_ok in Hys as [Hys ->].
  destruct original as [|original]; [discriminate |]. injection Hxs as <-.
  destruct new as [|new]; [discriminate |]. injection Hys as <-.
  apply bind_ok in Hrun as (new_bsyms & s1 & _ & Hrun).
  apply bind_ok in Hrun as (b0 & s2 & Hb0 & Hrun).
  apply of_result_ok in Hb0 as [Hb0 ->].
  apply bind_ok in Hrun as ([] & s2 & [Hsym0 ->]%py_assert_ok & Hrun).
  apply bind_ok in Hrun as (name & s2 & Hname & Hrun).
  apply of_result_ok in Hname as [Hname ->].
  apply bind_ok in Hrun as ([] & s2 & [Hname' ->]%py_assert_ok & Hrun).
  apply bind_ok in Hrun as (b4 & s2 & Hb4 & Hrun).
  apply of_result_ok in Hb4 as [Hb4 ->].
  apply bind_ok in Hrun as ([] & s2 & [Hsym4 ->]%py_assert_ok & Hrun).
  apply bind_ok in Hrun as (c0 & s2 & Hc0 & Hrun).
  apply of_result_ok in Hc0 as [Hc0 ->].
  apply result_bind_ok in Hc0 as (a & Ha & Hc0).
  apply bind_ok in Hrun as ([] & s2 & [Hc0' ->]%py_assert_ok & Hrun).
  apply bind_ok in Hrun as (nb4 & s2 & _ & Hrun).
  apply bind_ok in Hrun as (nb4' & s3 & _ & [= <- _]).
  apply bool_decide_eq_true_1 in Hsym0, Hname', Hsym4, Hc0'.
  unfold list_index in Hb0, Hb4, Ha.
  destruct (bound_symbols bw_trace !! 0%nat) as [b0'|] eqn:Hb0'; [| discriminate].
  destruct (bound_symbols bw_trace !! 4%nat) as [b4'|] eqn:Hb4'; [| discriminate].
  destruct (args b4 !! 0%nat) as [a'|] eqn:Ha'; [| discriminate].
  injection Hb0 as ->. injection Hb4 as ->. injection Ha as ->.
  destruct (kwargs b0 !! "name") as [name'|] eqn:Hkw; [| discriminate].
  injection Hname as ->. subst name c0.
  destruct a as [v |]; [| discriminate]. simpl in Hc0.
  destruct (proxy_name v) as [n|] eqn:Hv; [| discriminate]. injection Hc0 as ->.
  exists b0, b4, v, original, new, a0, o1. by repeat split.
Qed.

(** X14: with a statistics record but no compile-time data the routine
    never returns a pair of callables: every run ends in an exception. *)
Theorem split_with_stats_needs_compile_data
    (compile_config : gmap string cfg_value) (call_args : pytree)
    (w : W) (stats : CompileStats) :
  ∃ e, (split_forward_backward compile_config None call_args (w, Some stats)).1 = Err e.
Proof.
  destruct (split_forward_backward compile_config None call_args (w, Some stats))
    as [[r|e] s'] eqn:Hrun; [| by exists e].
  exfalso. unfold split_forward_backward in Hrun.
  apply bind_ok in Hrun as ([ba mask] & s0 & Hcheck & Hrun).
  apply bind_ok in Hrun as ([[primal fw_trace] bw_trace] & s1 & Htrace & Hrun).
  apply bind_ok in Hrun as (bw_trace' & s2 & Hfilter & Hrun).
  apply bind_ok in Hrun as ([fw_extrace bw_extrace] & s3 & Hopt & Hrun).
  apply bind_and_check_keeps_own in Hcheck.
  apply trace_and_differentiate_keeps_own in Htrace.
  apply keeps_own_of_result in Hfilter.
  apply optimize_keeps_own in Hopt.
  destruct s3 as [w3 stats3]. simpl in *.
  assert (stats3 = Some stats) as -> by congruence.
  discriminate Hrun.
Qed.


End split_structure.

(** ** [ThunderFunction] and the decorator's configuration *)

Section thunder_function_facts.
Import torch_autograd thunder_function.
Context {W : Type}.

(** X16: the decorator forces its two flags whatever the caller passed for
    them, and hands every other option through untouched. *)
Theorem forced_compile_config_lookup
    (compile_config : gmap string cfg_value) (key : string) :
  forced_compile_config compile_config !! key
  = if bool_decide (key = "disable_preprocessing"
                    ∨ key = "disable_torch_autograd_support")
    then Some (CBool true)
    else compile_config !! key.
Proof.
  unfold forced_compile_config, dict_or.
  destruct (decide (key = "disable_torch_autograd_support")) as [-> | Hne1].
  { rewrite bool_decide_eq_true_2 by tauto.
    apply lookup_union_Some_l, lookup_singleton_eq. }
  rewrite lookup_union_r by by apply lookup_singleton_ne.
  destruct (decide (key = "disable_preprocessing")) as [-> | Hne2].
  { rewrite bool_decide_eq_true_2 by tauto.
    apply lookup_union_Some_l, lookup_singleton_eq. }
  rewrite lookup_union_r by by apply lookup_singleton_ne.
  by rewrite bool_decide_eq_false_2 by tauto.
Qed.

(** X17: [forward] followed by [backward].  [forward] returns the flat
    outputs as they are, whatever the flat inputs; [backward] then calls
    the compiled backward stored by [forward] on the saved tensors and the
    other saved state, paired, and on the incoming output gradients, and
    returns four [None] followed by the gradients it got: the gradient of
    the i-th flat input sits at position 4 + i, past the four leading
    inputs of [forward] that are not differentiable. *)
Theorem forward_then_backward
    (cb : backward_callable W) (tensors : list pytree)
    (other flat_output : pytree) (flat_args output_grads grads : list pytree)
    (ctx0 : FunctionCtx W) (w w' : W) :
  cb (Node [Node tensors; other]) (Node output_grads) w = (Ok (Node grads), w') →
  ∃ ctx1 : FunctionCtx W,
    forward cb (Node tensors) other flat_output flat_args ctx0 = (Ok flat_output, ctx1)
    ∧ ∃ result : list pytree,
        backward ctx1 output_grads w = (Ok (Node result), w')
        ∧ length result = (4 + length grads)%nat
        ∧ (∀ i : nat, (i < 4)%nat → result !! i = Some (Leaf VNone))
        ∧ (∀ i : nat, result !! (4 + i)%nat = grads !! i).
Proof.
  intros Hcb. eexists. split; [reflexivity |].
  exists ([Leaf VNone; Leaf VNone; Leaf VNone; Leaf VNone] ++ grads).
  split; [| split; [| split]].
  - unfold backward. simpl. unfold mbind, M_bind. by rewrite Hcb.
  - done.
  - intros i Hi. by do 4 (destruct i as [|i]; [done |]); lia.
  - done.
Qed.

End thunder_function_facts.

(** ** The benchmark script as a whole *)

Section bench_log.
Import bench_run.

Lemma count_app c (a b : list event) : count c (a ++ b) = (count c a + count c b)%nat.
Proof. unfold count. by rewrite filter_app, length_app. Qed.

Lemma written_files_app (a b : list event) :
  written_files (a ++ b) = written_files a ++ written_files b.
Proof. unfold written_files. apply omap_app. Qed.

Lemma range_depth_app (a b : list event) d :
  range_depth (a ++ b) d = range_depth a d ≫= range_depth b.
Proof.
  revert d. induction a as [|e a IH]; intros d; [done |].
  destruct e; simpl; try apply IH. destruct d; [done | apply IH].
Qed.

Lemma logs_nil : logs [] (λ _, 0%nat) [].
Proof. by split. Qed.

Lemma logs_app a b n m fs gs :
  logs a n fs → logs b m gs → logs (a ++ b) (λ c, (n c + m c)%nat) (fs ++ gs).
Proof.
  intros (Hn & Hd & Hf) (Hm & Hd' & Hg). split; [| split].
  - intros c. by rewrite count_app, Hn, Hm.
  - intros d. rewrite range_depth_app, Hd. apply Hd'.
  - by rewrite written_files_app, Hf, Hg.
Qed.

Lemma logs_ext new n m fs gs :
  logs new n fs → (∀ c, n c = m c) → fs = gs → logs new m gs.
Proof. intros (Hn & Hd & Hf) Hnm <-. split; [| done]. intros c. by rewrite Hn. Qed.

Lemma adds_ret {A} (a : A) st : adds (mret a) st (Ok a) [] st.
Proof. intros log. by rewrite app_nil_r. Qed.

Lemma adds_emit e st : adds (emit e) st (Ok ()) [e] st.
Proof. by intros log. Qed.

Lemma adds_get_own st : adds get_own st (Ok st) [] st.
Proof. intros log. by rewrite app_nil_r. Qed.

Lemma adds_put_own st x : adds (put_own x) st (Ok ()) [] x.
Proof. intros log. by rewrite app_nil_r. Qed.

Lemma adds_of_result {A} (r : result A) st : adds (of_result r) st r [] st.
Proof. intros log. by rewrite app_nil_r. Qed.

Lemma adds_raise {A} e st : adds (raise (A := A) e) st (Err e) [] st.
Proof. intros log. by rewrite app_nil_r. Qed.

Lemma adds_bind_ok {A C} (m : B A) (k : A → B C) st a n1 st1 r n2 st2 :
  adds m st (Ok a) n1 st1 → adds (k a) st1 r n2 st2 →
  adds (m ≫= k) st r (n1 ++ n2) st2.
Proof.
  intros Hm Hk log. unfold mbind, M_bind. by rewrite Hm, Hk, app_assoc.
Qed.

Lemma adds_bind_err {A C} (m : B A) (k : A → B C) st e n1 st1 :
  adds m st (Err e) n1 st1 → adds (m ≫= k) st (Err e) n1 st1.
Proof. intros Hm log. unfold mbind, M_bind. by rewrite Hm. Qed.

Lemma adds_inj {A} (m : B A) st r1 n1 st1 r2 n2 st2 :
  adds m st r1 n1 st1 → adds m st r2 n2 st2 → r1 = r2 ∧ n1 = n2 ∧ st1 = st2.
Proof.
  intros H1 H2. specialize (H1 []). rewrite (H2 []) in H1.
  by injection H1 as -> -> ->.
Qed.

(** A loop whose body leaves the own state alone. *)
Lemma forM__adds {A} (g : A → B unit) st (l : list A) n :
  (∀ a, ∃ new, adds (g a) st (Ok ()) new st ∧ logs new n []) →
  ∃ new, adds (forM_ g l) st (Ok ()) new st ∧
         logs new (λ c, (length l * n c)%nat) [].
Proof.
  intros Hg. induction l as [|a l (new' & Hrun & Hlogs)]; simpl.
  - exists []. split; [apply adds_ret | apply logs_nil].
  - destruct (Hg a) as (new & Ha & Hn). exists (new ++ new'). split.
    + by eapply adds_bind_ok.
    + eapply logs_ext; [by eapply logs_app | intros c; simpl; lia | done].
Qed.
End bench_log.

Section bench_phases.
Import bench bench_run.
Context {float : Type}.
Context (str_of_float : float → string) (le_zero : float → bool)
        (path_join : string → string → string) (path_exists : string → bool)
        (get_rank_uninitialized : result Z) (allreduce_elements : nat).
Context (h : harness float) (f : flags).

Ltac run :=
  unfold when, marker, emit, lift, py_assert, raise, of_result, get_own, put_own,
    mbind, M_bind, mret, M_ret; simpl.

Ltac solve_adds :=
  let log := fresh "log" in
  intros log; run; rewrite <- ?app_assoc;
  first [ reflexivity
        | exact (eq_sym (f_equal (λ l, (_, (l, _))) (app_nil_r log))) ].

Ltac solve_logs :=
  split; [ let c := fresh "c" in intros c; destruct c; reflexivity
         | split; [ intros ?; reflexivity | reflexivity ] ].

Lemma startup_adds st :
  ∃ r new, adds (startup h f) st r new st ∧ logs new (λ _, 0%nat) [] ∧
    (r = Ok () ∨ r = Err AssertionError) ∧
    (r = Ok () ↔
       (dump_extrace f = true → compile_mode f = "thunder") ∧
       (skip_torch_compile f = true → use_ddp h = true)).
Proof.
  unfold startup, local_rank.
  destruct (dump_extrace f) eqn:Hdump, (bool_decide (compile_mode f = "thunder")) eqn:Hmode,
    (use_ddp h) eqn:Hddp, (skip_torch_compile f) eqn:Hskip,
    (bool_decide (Some (local_rank_env f) = Some 0)).
  all: eexists _, _; (split; [solve_adds |]); (split; [solve_logs |]).
  all: try apply bool_decide_eq_true in Hmode; try apply bool_decide_eq_false in Hmode.
  all: split; [auto |]; split; [try done; by intros _ | try done; intros [H1 H2]; exfalso; auto].
  all: try (specialize (H1 eq_refl); done); try (specialize (H2 eq_refl); done).
Qed.

Lemma compile_adds st :
  ∃ r new, adds (compile_model le_zero h f) st r new st ∧
    logs new (λ c, match c with
                   | TorchCompile =>
                       if bool_decide (compile_mode f = "torch")
                          && negb (skip_torch_compile f || le_zero (bucket_size_in_mb h))
                       then 1 else 0
                   | ThunderCompile =>
                       if bool_decide (compile_mode f = "thunder") then 1 else 0
                   | _ => 0
                   end%nat) [] ∧
    (r = Ok () ↔ compile_mode f = "torch" ∨ compile_mode f = "thunder").
Proof.
  unfold compile_model.
  destruct (bool_decide (compile_mode f = "torch")) eqn:Htorch,
    (bool_decide (compile_mode f = "thunder")) eqn:Hthunder,
    (skip_torch_compile f), (le_zero (bucket_size_in_mb h)).
  all: try apply bool_decide_eq_true in Htorch; try apply bool_decide_eq_false in Htorch.
  all: try apply bool_decide_eq_true in Hthunder; try apply bool_decide_eq_false in Hthunder.
  all: try (exfalso; congruence).
  all: eexists _, _; (split; [solve_adds |]); (split; [solve_logs |]).
  all: split; [auto; discriminate | try done; intros [|]; done].
Qed.

Lemma save_files_dir :
  save_files h = true → ∃ dir, dir_for_outputs str_of_float h = Some dir.
Proof. unfold dir_for_outputs. intros ->. eauto. Qed.

Lemma no_save_files_dir :
  save_files h = false → dir_for_outputs str_of_float h = None.
Proof. unfold dir_for_outputs. by intros ->. Qed.

Lemma make_output_dir_adds st :
  ∃ new, adds (make_output_dir str_of_float path_exists h) st (Ok ()) new st ∧
         logs new (λ _, 0%nat) [].
Proof.
  unfold make_output_dir. destruct (save_files h) eqn:Hsave.
  - destruct (save_files_dir Hsave) as [dir ->]. destruct (path_exists dir).
    all: eexists; (split; [solve_adds | solve_logs]).
  - eexists; (split; [solve_adds | solve_logs]).
Qed.

Local Abbreviation step_counts mk := (λ c,
  match c with
  | ForwardPass | BackwardPass | OptimizerUpdate => 1
  | Range => if mk then 10 else 0
  | StepLossLine => if print_loss f then 1 else 0
  | _ => 0
  end%nat).

Local Abbreviation kept stage := (λ k : nat,
  if print_loss f then []
  else if bool_decide (stage = 1%nat) then [(stage, k)] else []).

Lemma step_adds stage n k ls mk cx :
  ∃ new,
    adds (step f stage n k)
      {| losses := ls; put_nvtx_markers := mk; context := cx |} (Ok ()) new
      {| losses := ls ++ kept stage k; put_nvtx_markers := mk; context := cx |} ∧
    logs new (step_counts mk) [].
Proof.
  unfold step.
  destruct (print_loss f), mk, (bool_decide (stage = 1%nat)).
  all: rewrite ?app_nil_r; eexists; (split; [solve_adds | solve_logs]).
Qed.

Lemma steps_adds stage n ks ls mk cx :
  ∃ new,
    adds (forM_ (step f stage n) ks)
      {| losses := ls; put_nvtx_markers := mk; context := cx |} (Ok ()) new
      {| losses := ls ++ flat_map (kept stage) ks;
         put_nvtx_markers := mk; context := cx |} ∧
    logs new (λ c, (length ks * step_counts mk c)%nat) [].
Proof.
  revert ls. induction ks as [|k ks IH]; intros ls; simpl.
  - exists []. rewrite app_nil_r. split; [apply adds_ret | apply logs_nil].
  - destruct (step_adds stage n k ls mk cx) as (new1 & Hstep & Hlogs1).
    destruct (IH (ls ++ kept stage k)) as (new2 & Hrest & Hlogs2).
    exists (new1 ++ new2). split.
    + rewrite app_assoc. by eapply adds_bind_ok.
    + eapply logs_ext; [by eapply logs_app | intros c; simpl; lia | done].
Qed.

Local Abbreviation armable :=
  (match dist_rank h with
   | Some r => r = 0
   | None => ∃ z, get_rank_uninitialized = Ok z
   end).

Local Abbreviation arm :=
  (arm_measured_stage str_of_float path_join get_rank_uninitialized h f).

Lemma arm_ok ls mk cx :
  (profile f = true → armable) →
  ∃ new cx',
    adds arm {| losses := ls; put_nvtx_markers := mk; context := cx |} (Ok ()) new
      {| losses := ls; put_nvtx_markers := nsys_profile f || mk; context := cx' |} ∧
    logs new (λ _, 0%nat) [].
Proof.
  intros Harm. unfold arm_measured_stage, in_output_dir, dir_for_outputs, save_files,
    is_initialized, use_ddp.
  destruct (profile f).
  - specialize (Harm eq_refl). destruct (dist_rank h) as [r|].
    + subst r. destruct (nsys_profile f).
      all: eexists _, _; (split; [solve_adds | solve_logs]).
    + destruct Harm as [z ->]. destruct (nsys_profile f).
      all: eexists _, _; (split; [solve_adds | solve_logs]).
  - destruct (nsys_profile f).
    all: eexists _, _; (split; [solve_adds | solve_logs]).
Qed.

Lemma arm_err st :
  profile f = true → ¬ armable →
  ∃ e, adds arm st (Err e) [] st ∧ (dist_rank h ≠ None → e = TypeError).
Proof.
  intros Hprofile Harm. unfold arm_measured_stage, in_output_dir, dir_for_outputs,
    save_files, is_initialized, use_ddp. rewrite Hprofile.
  destruct (dist_rank h) as [r|].
  - destruct (Z.eqb_spec r 0) as [-> | Hr]; [done |].
    exists TypeError. split; [solve_adds | done].
  - destruct get_rank_uninitialized as [z|e]; [destruct Harm; eauto |].
    exists e. split; [solve_adds | done].
Qed.


Ltac chain :=
  lazymatch goal with
  | |- adds (mbind _ _) _ _ _ _ =>
      first [ eassumption | eapply adds_bind_ok; [chain | cbv beta; chain] ]
  | |- _ =>
      first [ apply adds_emit | apply adds_ret | apply adds_get_own
            | apply adds_put_own | apply adds_of_result | eassumption ]
  end.

Ltac split_ifs :=
  repeat match goal with |- context [if ?b then _ else _] => destruct b end.

Ltac chain_logs Hlogs :=
  let Hc := fresh "Hc" in
  let Hd := fresh "Hd" in
  let Hf := fresh "Hf" in
  destruct Hlogs as (Hc & Hd & Hf);
  split;
  [ let c := fresh "c" in
    intros c; rewrite !count_app, Hc; destruct c; unfold count; simpl; lia
  | split;
    [ intros ?; repeat (rewrite ?range_depth_app, ?Hd; simpl); reflexivity
    | rewrite !written_files_app, Hf; reflexivity ] ].

Local Abbreviation run_stage :=
  (run_stage str_of_float path_join get_rank_uninitialized h f).

Lemma burn_in_adds ls mk cx :
  ∃ new,
    adds (run_stage 0 10)
      {| losses := ls; put_nvtx_markers := mk; context := cx |} (Ok ()) new
      {| losses := ls; put_nvtx_markers := mk; context := cx |} ∧
    logs new (λ c, (10 * step_counts mk c)%nat) [].
Proof.
  destruct (steps_adds 0 10 (seq 0 10) ls mk cx) as (new & Hsteps & Hlogs).
  replace (ls ++ _) with ls in Hsteps
    by (destruct (print_loss f); simpl; by rewrite app_nil_r).
  eexists. split; [unfold bench_run.run_stage; chain |].
  chain_logs Hlogs.
Qed.


Lemma measured_ok ls mk cx :
  (profile f = true → armable) →
  ∃ new cx',
    adds (run_stage 1 20)
      {| losses := ls; put_nvtx_markers := mk; context := cx |} (Ok ()) new
      {| losses := ls ++ flat_map (kept 1%nat) (seq 0 20);
         put_nvtx_markers := nsys_profile f || mk; context := cx' |} ∧
    logs new (λ c, match c with
                   | TimeLine => 1
                   | _ => 20 * step_counts (nsys_profile f || mk) c
                   end%nat) [].
Proof.
  intros Harm.
  destruct (arm_ok ls mk cx Harm) as (new0 & cx' & Harm_run & Hc0 & Hd0 & Hf0).
  destruct (steps_adds 1 20 (seq 0 20) ls (nsys_profile f || mk) cx')
    as (new & Hsteps & Hc & Hd & Hf).
  eexists _, _. split; [unfold bench_run.run_stage; chain |].
  split; [| split].
  - intros c. rewrite !count_app, Hc0, Hc. destruct c; unfold count; simpl; lia.
  - intros d. repeat (rewrite ?range_depth_app, ?Hd0, ?Hd; simpl). reflexivity.
  - by rewrite !written_files_app, Hf0, Hf.
Qed.

Lemma measured_err st :
  profile f = true → ¬ armable →
  ∃ e, adds (run_stage 1 20) st (Err e) [] st ∧ (dist_rank h ≠ None → e = TypeError).
Proof.
  intros Hprofile Harm. destruct (arm_err st Hprofile Harm) as (e & Hrun & He).
  exists e. split; [| done]. unfold bench_run.run_stage. by apply adds_bind_err.
Qed.

Local Abbreviation timed_loop :=
  (timed_loop str_of_float path_join get_rank_uninitialized h f).

Local Abbreviation loop_counts := (λ c,
  match c with
  | ForwardPass | BackwardPass | OptimizerUpdate => 30
  | TimeLine => 1
  | Range => if nsys_profile f then 200 else 0
  | StepLossLine => if print_loss f then 30 else 0
  | _ => 0
  end%nat).

Local Abbreviation burn_in_counts := (λ c,
  match c with
  | ForwardPass | BackwardPass | OptimizerUpdate => 10
  | StepLossLine => if print_loss f then 10 else 0
  | _ => 0
  end%nat).

Lemma timed_loop_ok :
  (profile f = true → armable) →
  ∃ new st',
    adds timed_loop initial (Ok ()) new st' ∧ logs new loop_counts [] ∧
    losses st' = if print_loss f then [] else map (pair 1%nat) (seq 0 20).
Proof.
  intros Harm.
  destruct (burn_in_adds [] false None) as (new0 & Hburn & Hlogs0).
  destruct (measured_ok [] false None Harm) as (new1 & cx' & Hmeasured & Hlogs1).
  eexists _, _. split; [| split].
  - unfold bench_run.timed_loop. simpl.
    eapply adds_bind_ok; [exact Hburn |].
    eapply adds_bind_ok; [exact Hmeasured | apply adds_ret].
  - eapply logs_ext; [eapply logs_app; [exact Hlogs0 | eapply logs_app; [exact Hlogs1 | apply logs_nil]] | | done].
    intros c. destruct c, (nsys_profile f), (print_loss f); reflexivity.
  - simpl. by destruct (print_loss f).
Qed.

Lemma timed_loop_err :
  profile f = true → ¬ armable →
  ∃ e new,
    adds timed_loop initial (Err e) new initial ∧ logs new burn_in_counts [] ∧
    (dist_rank h ≠ None → e = TypeError).
Proof.
  intros Hprofile Harm.
  destruct (burn_in_adds [] false None) as (new0 & Hburn & Hlogs0).
  destruct (measured_err initial Hprofile Harm) as (e & Hmeasured & He).
  exists e, (new0 ++ []). split; [| split; [| done]].
  - unfold bench_run.timed_loop. simpl.
    eapply adds_bind_ok; [exact Hburn |]. by apply adds_bind_err.
  - eapply logs_ext; [eapply logs_app; [exact Hlogs0 | apply logs_nil] | | done].
    intros c. destruct c, (print_loss f); reflexivity.
Qed.

Local Abbreviation report_loss_counts := (λ c,
  match c with
  | IterationLossLine =>
      if bool_decide (local_rank h f = None ∨ local_rank h f = Some 0%Z) then 1 else 0
  | LossAllReduce => if use_ddp h then 1 else 0
  | _ => 0
  end%nat).

Lemma report_loss_adds st i :
  ∃ new, adds (report_loss h f i) st (Ok ()) new st ∧ logs new report_loss_counts [].
Proof.
  unfold report_loss.
  destruct (bool_decide (local_rank h f = None ∨ local_rank h f = Some 0)), (use_ddp h).
  all: eexists; (split; [solve_adds | solve_logs]).
Qed.

Local Abbreviation trace_files :=
  (match dir_for_outputs str_of_float h with
   | Some dir =>
       if dump_extrace f
       then [path_join dir "fwd_trace.py"; path_join dir "bwd_trace.py"]
       else []
   | None => []
   end).

Local Abbreviation report :=
  (report str_of_float path_join allreduce_elements h f).

Lemma report_adds st :
  ∃ new,
    adds report st (Ok ()) new st ∧
    logs new (λ c, (length (losses st) * report_loss_counts c)%nat) trace_files.
Proof.
  destruct (forM__adds (report_loss h f) st (seq 0 (length (losses st))) _
              (report_loss_adds st)) as (new1 & Hlosses & Hc1 & Hd1 & Hf1).
  rewrite length_seq in Hc1.
  destruct (forM__adds (λ _ : nat, emit (Print AllReduceOccurrences)) st
              (seq 0 allreduce_elements) (λ _, 0%nat)) as (new2 & Hprints & Hc2 & Hd2 & Hf2).
  { intros _. eexists. split; [apply adds_emit | solve_logs]. }
  unfold bench_run.report, in_output_dir.
  destruct (save_files h) eqn:Hsave.
  - destruct (save_files_dir Hsave) as [dir ->].
    destruct (nsys_profile f), (profile f),
      (bool_decide (local_rank h f = Some 0)), (dump_extrace f).
    all: eexists; (split; [unfold when; simpl; chain |]).
    all: split; [| split].
    all: try (intros c; rewrite !count_app, ?Hc1, ?Hc2; destruct c; unfold count; simpl; lia).
    all: try (intros d; repeat (rewrite ?range_depth_app, ?Hd1, ?Hd2; simpl); reflexivity).
    all: by rewrite !written_files_app, ?Hf1, ?Hf2.
  - rewrite (no_save_files_dir Hsave). rewrite andb_false_r.
    destruct (nsys_profile f), (profile f), (bool_decide (local_rank h f = Some 0)).
    all: eexists; (split; [unfold when; simpl; chain |]).
    all: split; [| split].
    all: try (intros c; rewrite !count_app, ?Hc1, ?Hc2; destruct c; unfold count; simpl; lia).
    all: try (intros d; repeat (rewrite ?range_depth_app, ?Hd1, ?Hd2; simpl); reflexivity).
    all: by rewrite !written_files_app, ?Hf1, ?Hf2.
Qed.


Local Abbreviation main :=
  (main str_of_float le_zero path_join path_exists get_rank_uninitialized
     allreduce_elements h f).

Local Abbreviation flags_consistent :=
  ((dump_extrace f = true → compile_mode f = "thunder") ∧
   (skip_torch_compile f = true → use_ddp h = true)).

Local Abbreviation mode_known :=
  (compile_mode f = "torch" ∨ compile_mode f = "thunder").

Local Abbreviation compile_counts := (λ c,
  match c with
  | TorchCompile =>
      if bool_decide (compile_mode f = "torch")
         && negb (skip_torch_compile f || le_zero (bucket_size_in_mb h))
      then 1 else 0
  | ThunderCompile => if bool_decide (compile_mode f = "thunder") then 1 else 0
  | _ => 0
  end%nat).

Local Abbreviation main_counts := (λ c,
  match c with
  | IterationLossLine =>
      if print_loss f then 0
      else if bool_decide (local_rank h f = None ∨ local_rank h f = Some 0%Z)
           then 20 else 0
  | LossAllReduce => if print_loss f then 0 else if use_ddp h then 20 else 0
  | _ => compile_counts c + loop_counts c
  end%nat).

Lemma main_ok :
  flags_consistent → mode_known → (profile f = true → armable) →
  ∃ new st',
    adds main initial (Ok ()) new st' ∧ logs new main_counts trace_files ∧
    losses st' = if print_loss f then [] else map (pair 1%nat) (seq 0 20).
Proof.
  intros Hflags Hmode Harm.
  destruct (startup_adds initial) as (r1 & new1 & Hstartup & Hlogs1 & _ & Hr1).
  apply Hr1 in Hflags as ->.
  destruct (compile_adds initial) as (r2 & new2 & Hcompile & Hlogs2 & Hr2).
  apply Hr2 in Hmode as ->.
  destruct (make_output_dir_adds initial) as (new3 & Hmkdir & Hlogs3).
  destruct (timed_loop_ok Harm) as (new4 & st' & Hloop & Hlogs4 & Hlosses).
  destruct (report_adds st') as (new5 & Hreport & Hlogs5).
  exists (new1 ++ new2 ++ new3 ++ new4 ++ new5), st'. split; [| split; [| done]].
  - unfold bench_run.main.
    eapply adds_bind_ok; [exact Hstartup |].
    eapply adds_bind_ok; [exact Hcompile |].
    eapply adds_bind_ok; [exact Hmkdir |].
    eapply adds_bind_ok; [exact Hloop | exact Hreport].
  - eapply logs_ext;
      [exact (logs_app _ _ _ _ _ _ Hlogs1 (logs_app _ _ _ _ _ _ Hlogs2
               (logs_app _ _ _ _ _ _ Hlogs3 (logs_app _ _ _ _ _ _ Hlogs4 Hlogs5)))) | | done].
    intros c. rewrite Hlosses.
    destruct c, (print_loss f); cbv beta iota; rewrite ?length_map, ?length_seq;
      split_ifs; cbn [length]; lia.
Qed.

Lemma main_startup_err :
  ¬ flags_consistent → ∃ new, adds main initial (Err AssertionError) new initial.
Proof.
  intros Hflags.
  destruct (startup_adds initial) as (r1 & new1 & Hstartup & _ & [-> | ->] & Hr1).
  - destruct Hflags. by apply Hr1.
  - exists new1. unfold bench_run.main. by apply adds_bind_err.
Qed.

Lemma main_mode_err :
  flags_consistent → ¬ mode_known → ∃ e new, adds main initial (Err e) new initial.
Proof.
  intros Hflags Hmode.
  destruct (startup_adds initial) as (r1 & new1 & Hstartup & _ & _ & Hr1).
  apply Hr1 in Hflags as ->.
  destruct (compile_adds initial) as ([[]|e] & new2 & Hcompile & _ & Hr2).
  - destruct Hmode. by apply Hr2.
  - exists e, (new1 ++ new2). unfold bench_run.main.
    eapply adds_bind_ok; [exact Hstartup |]. by apply adds_bind_err.
Qed.

Lemma main_loop_err :
  flags_consistent → mode_known → profile f = true → ¬ armable →
  ∃ e new,
    adds main initial (Err e) new initial ∧
    logs new (λ c, (compile_counts c + burn_in_counts c)%nat) [] ∧
    (dist_rank h ≠ None → e = TypeError).
Proof.
  intros Hflags Hmode Hprofile Harm.
  destruct (startup_adds initial) as (r1 & new1 & Hstartup & Hlogs1 & _ & Hr1).
  apply Hr1 in Hflags as ->.
  destruct (compile_adds initial) as (r2 & new2 & Hcompile & Hlogs2 & Hr2).
  apply Hr2 in Hmode as ->.
  destruct (make_output_dir_adds initial) as (new3 & Hmkdir & Hlogs3).
  destruct (timed_loop_err Hprofile Harm) as (e & new4 & Hloop & Hlogs4 & He).
  exists e, (new1 ++ new2 ++ new3 ++ new4). split; [| split; [| done]].
  - unfold bench_run.main.
    eapply adds_bind_ok; [exact Hstartup |].
    eapply adds_bind_ok; [exact Hcompile |].
    eapply adds_bind_ok; [exact Hmkdir |]. by apply adds_bind_err.
  - eapply logs_ext;
      [exact (logs_app _ _ _ _ _ _ Hlogs1 (logs_app _ _ _ _ _ _ Hlogs2
               (logs_app _ _ _ _ _ _ Hlogs3 Hlogs4))) | | done].
    intros c. destruct c; cbv beta iota; split_ifs; lia.
Qed.

Lemma flags_consistent_dec : flags_consistent ∨ ¬ flags_consistent.
Proof.
  destruct (dump_extrace f), (decide (compile_mode f = "thunder")),
    (skip_torch_compile f), (use_ddp h); try (left; by split).
  all: right; intros [H1 H2]; try (by specialize (H2 eq_refl)); by specialize (H1 eq_refl).
Qed.

Lemma mode_known_dec : mode_known ∨ ¬ mode_known.
Proof.
  destruct (decide (compile_mode f = "torch")), (decide (compile_mode f = "thunder")); auto.
  right. by intros [|].
Qed.

Lemma armable_dec :
  (profile f = true → armable) ∨ (profile f = true ∧ ¬ armable).
Proof.
  destruct (profile f); [| by left]. destruct (dist_rank h) as [r|].
  - destruct (decide (r = 0)); [by left | by right].
  - destruct get_rank_uninitialized as [z|e]; [left; eauto | right].
    split; [done |]. by intros [z ?].
Qed.

(** What a run that returns has done. *)
Lemma main_completed log st :
  main ([], initial) = (Ok (), (log, st)) →
  flags_consistent ∧ mode_known ∧ (profile f = true → armable) ∧
  logs log main_counts trace_files ∧
  losses st = if print_loss f then [] else map (pair 1%nat) (seq 0 20).
Proof.
  intros Hrun.
  destruct flags_consistent_dec as [Hflags | Hflags].
  2: { destruct (main_startup_err Hflags) as (new & Herr).
       rewrite (Herr []) in Hrun. discriminate Hrun. }
  destruct mode_known_dec as [Hmode | Hmode].
  2: { destruct (main_mode_err Hflags Hmode) as (e & new & Herr).
       rewrite (Herr []) in Hrun. discriminate Hrun. }
  destruct armable_dec as [Harm | [Hprofile Harm]].
  2: { destruct (main_loop_err Hflags Hmode Hprofile Harm) as (e & new & Herr & _).
       rewrite (Herr []) in Hrun. discriminate Hrun. }
  destruct (main_ok Hflags Hmode Harm) as (new & st' & Hok & Hlogs & Hlosses).
  rewrite (Hok []) in Hrun. injection Hrun as <- <-. done.
Qed.


(** X18: a run whose flags contradict each other ([--dump-extrace] in a
    mode other than thunder, or [--skip-torch-compile] in a
    single-process run) stops with [AssertionError] before the script has
    made a single call. *)
Theorem inconsistent_flags_stop_before_any_call :
  (dump_extrace f = true ∧ compile_mode f ≠ "thunder") ∨
  (skip_torch_compile f = true ∧ dist_rank h = None) →
  main ([], initial) = (Err AssertionError, ([], initial)).
Proof.
  intros Hbad.
  assert (startup h f ([], initial) = (Err AssertionError, ([], initial))) as Hstartup.
  { unfold startup, local_rank, use_ddp.
    destruct Hbad as [[-> Hmode] | [-> ->]].
    - by rewrite (bool_decide_eq_false_2 _ Hmode).
    - by destruct (dump_extrace f), (bool_decide (compile_mode f = "thunder")). }
  unfold bench_run.main, mbind, M_bind. by rewrite Hstartup.
Qed.

(** X19: as long as the calls it makes return, the script runs to its
    end exactly when the flag checks pass, the mode is one of the two
    known ones and, with [--profile], the process is rank 0 of a
    distributed run or a single process in which
    [torch.distributed.get_rank()] returns. *)
Theorem run_completes_iff :
  (∃ log st, main ([], initial) = (Ok (), (log, st))) ↔
  (dump_extrace f = true → compile_mode f = "thunder") ∧
  (skip_torch_compile f = true → use_ddp h = true) ∧
  (compile_mode f = "torch" ∨ compile_mode f = "thunder") ∧
  (profile f = true →
   match dist_rank h with
   | Some r => r = 0
   | None => ∃ z, get_rank_uninitialized = Ok z
   end).
Proof.
  split.
  - intros (log & st & Hrun).
    destruct (main_completed log st Hrun) as ([H1 H2] & H3 & H4 & _). auto.
  - intros (H1 & H2 & H3 & H4).
    destruct (main_ok (conj H1 H2) H3 H4) as (new & st' & Hok & _).
    exists new, st'. apply (Hok []).
Qed.

(** X20: a run that reaches its end has made 30 forward passes, 30
    backward passes and 30 optimizer updates (10 of burn-in, 20 measured)
    and has printed the time per iteration once. *)
Theorem completed_run_trains_thirty_steps log st :
  main ([], initial) = (Ok (), (log, st)) →
  count ForwardPass log = 30%nat ∧ count BackwardPass log = 30%nat ∧
  count OptimizerUpdate log = 30%nat ∧ count TimeLine log = 1%nat.
Proof.
  intros Hrun.
  destruct (main_completed log st Hrun) as (_ & _ & _ & (Hcount & _) & _).
  by rewrite !Hcount.
Qed.

(** X21: in a run that reaches its end every instrumentation range that
    is pushed is popped, none is popped before it is pushed, and ranges
    are pushed in the measured stage of an [--nsys-profile] run only: 200
    pushes and pops then, none otherwise. *)
Theorem completed_run_balances_ranges log st :
  main ([], initial) = (Ok (), (log, st)) →
  range_depth log 0 = Some 0%nat ∧
  count Range log = if nsys_profile f then 200%nat else 0%nat.
Proof.
  intros Hrun.
  destruct (main_completed log st Hrun) as (_ & _ & _ & (Hcount & Hdepth & _) & _).
  split; [apply Hdepth |]. rewrite Hcount. by destruct (nsys_profile f).
Qed.

(** X22: a run that reaches its end has called [thunder.compile] once in
    the thunder mode and never otherwise, and [torch.compile] once in the
    torch mode unless [--skip-torch-compile] is given or the bucket size
    is not positive, and never otherwise. *)
Theorem completed_run_compiles_once log st :
  main ([], initial) = (Ok (), (log, st)) →
  count ThunderCompile log
    = (if bool_decide (compile_mode f = "thunder") then 1%nat else 0%nat) ∧
  count TorchCompile log
    = (if bool_decide (compile_mode f = "torch")
          && negb (skip_torch_compile f || le_zero (bucket_size_in_mb h))
       then 1%nat else 0%nat).
Proof.
  intros Hrun.
  destruct (main_completed log st Hrun) as (_ & _ & _ & (Hcount & _) & _).
  rewrite !Hcount. split; cbv beta iota; split_ifs; lia.
Qed.

(** X23: in a run that reaches its end, with [--print-loss] every one
    of the 30 steps prints its loss and no loss is kept; without it the
    losses of the 20 measured steps are kept, in order, each is
    all-reduced in a distributed run, and each is printed only where the
    local rank is absent or 0. *)
Theorem completed_run_reports_losses log st :
  main ([], initial) = (Ok (), (log, st)) →
  losses st = (if print_loss f then [] else map (pair 1%nat) (seq 0 20)) ∧
  count StepLossLine log = (if print_loss f then 30%nat else 0%nat) ∧
  count LossAllReduce log
    = (if print_loss f then 0%nat else if use_ddp h then 20%nat else 0%nat) ∧
  count IterationLossLine log
    = (if print_loss f then 0%nat
       else if bool_decide (local_rank h f = None ∨ local_rank h f = Some 0)
            then 20%nat else 0%nat).
Proof.
  intros Hrun.
  destruct (main_completed log st Hrun) as (_ & _ & _ & (Hcount & _) & Hlosses).
  split; [done |]. rewrite !Hcount.
  split; [| split]; cbv beta iota; split_ifs; lia.
Qed.


(** X25: with [--profile], a process of a distributed run whose rank is
    not 0 has no output directory: once the flag checks and the choice of
    the mode have passed, the run stops with [TypeError] after the 10
    burn-in steps, before any measured step, and prints no time. *)
Theorem profiled_run_on_other_rank_fails r :
  profile f = true → dist_rank h = Some r → r ≠ 0 →
  (dump_extrace f = true → compile_mode f = "thunder") →
  compile_mode f = "torch" ∨ compile_mode f = "thunder" →
  ∃ log st,
    main ([], initial) = (Err TypeError, (log, st)) ∧
    count ForwardPass log = 10%nat ∧ count TimeLine log = 0%nat.
Proof.
  intros Hprofile Hrank Hr Hdump Hmode.
  assert (use_ddp h = true) as Hddp by (unfold use_ddp; by rewrite Hrank).
  destruct (main_loop_err (conj Hdump (λ _, Hddp)) Hmode Hprofile)
    as (e & new & Herr & (Hcount & _) & He).
  { by rewrite Hrank. }
  rewrite He in Herr by (by rewrite Hrank).
  exists new, initial. split; [apply (Herr []) |]. by rewrite !Hcount.
Qed.

End bench_phases.

(** ** Concrete runs of the further properties *)

Section more_runs.
Import torch_autograd thunder_function.

Lemma bind_and_check_passes_witness :
  bind_and_check sample.call_args ([], None)
  = (Ok (sample.call_args,
         tensor_requires_grad <$> tree_flatten sample.call_args), ([], None))
  ∧ length (tensor_requires_grad <$> tree_flatten sample.call_args)
    = length (tree_flatten sample.call_args).
Proof.
  apply (bind_and_check_passes sample.call_args sample.call_args sample.a);
    [reflexivity | | reflexivity].
  apply (list_elem_of_lookup_2 _ 0%nat). reflexivity.
Defined.

Lemma filter_input_grads_idempotent_witness :
  ∃ bw_trace',
    filter_input_grads sample.bw [true; false; false] = Ok bw_trace'
    ∧ filter_input_grads bw_trace' [true; false; false] = Ok bw_trace'.
Proof.
  destruct (filter_input_grads sample.bw [true; false; false])
    as [bw_trace'|e] eqn:Hrun; [| vm_compute in Hrun; discriminate].
  exists bw_trace'. split; [reflexivity |].
  exact (filter_input_grads_idempotent sample.bw bw_trace' _ Hrun).
Defined.

Lemma filter_input_grads_keeps_all_witness :
  filter_input_grads sample.bw (replicate 3 true) = Ok sample.bw.
Proof.
  exact (filter_input_grads_keeps_all sample.bw
           (take 7 (bound_symbols sample.bw))
           (bsym_of RETURN [Node [sample.t "ga"; sample.t "gb"; Leaf VNone]] ∅
              (Leaf VNone))
           [sample.t "ga"; sample.t "gb"; Leaf VNone]
           eq_refl eq_refl eq_refl).
Defined.


Lemma make_swap_map_unchanged_witness :
  make_swap_map [sample.t "a"; sample.t "b"] [sample.t "a"; sample.t "b"] = [].
Proof.
  apply make_swap_map_unchanged. repeat constructor.
Defined.

Lemma patch_saved_tensors_layout_witness :
  ∃ (bw_trace' : TraceCtx) (s' : list string * option CompileStats)
    (b4 : BoundSymbol) (c0 : value),
    patch_saved_tensors sample.fw sample.bw ([], None) = (Ok bw_trace', s')
    ∧ bound_symbols sample.bw !! 4%nat = Some b4
    ∧ sym b4 = UNPACK_SEQUENCE
    ∧ args b4 !! 0%nat = Some (Leaf c0)
    ∧ proxy_name c0 = Some "C0"
    ∧ trace_args bw_trace' = trace_args sample.bw.
Proof.
  destruct (patch_saved_tensors sample.fw sample.bw ([], None))
    as [[bw_trace'|e] s'] eqn:Hrun; [| vm_compute in Hrun; discriminate].
  destruct (patch_saved_tensors_layout _ _ _ _ _ Hrun)
    as (b0 & b4 & c0 & original & new & a0 & o1 & _ & _ & _ & Hb4 & Hsym4 & Hc0
        & Hname & _ & _ & _ & _ & Hargs & _).
  exists bw_trace', s', b4, c0. split; [reflexivity |].
  split; [exact Hb4 |]. split; [exact Hsym4 |]. split; [exact Hc0 |].
  split; [exact Hname | exact Hargs].
Defined.


Lemma forward_then_backward_witness :
  ∃ (ctx1 : FunctionCtx (list string)) (result : list pytree),
    forward (λ _ _, sample.logged "backward" (Node [sample.t "ga"; Leaf VNone]))
      (Node [sample.t "a"; sample.t "b"]) (Node []) (Node [sample.t "t0"])
      [sample.t "a"; sample.t "b"]
      {| ctx_saved_other := None; ctx_compiled_backward := None;
         ctx_saved_tensors := [] |}
    = (Ok (Node [sample.t "t0"]), ctx1)
    ∧ backward ctx1 [sample.t "g"] [] = (Ok (Node result), ["backward"])
    ∧ length result = 6%nat
    ∧ result !! 4%nat = Some (sample.t "ga").
Proof.
  destruct (forward_then_backward
              (λ _ _, sample.logged "backward" (Node [sample.t "ga"; Leaf VNone]))
              [sample.t "a"; sample.t "b"] (Node []) (Node [sample.t "t0"])
              [sample.t "a"; sample.t "b"] [sample.t "g"]
              [sample.t "ga"; Leaf VNone]
              {| ctx_saved_other := None; ctx_compiled_backward := None;
                 ctx_saved_tensors := [] |} [] ["backward"] eq_refl)
    as (ctx1 & Hforward & result & Hbackward & Hlen & _ & Hgrads).
  exists ctx1, result. split; [exact Hforward |]. split; [exact Hbackward |].
  split; [exact Hlen | exact (Hgrads 0%nat)].
Defined.

End more_runs.

Section bench_runs.
Import bench bench_run.

Lemma sample_run_unfold (h : harness string) (f : flags) :
  sample_run.run h f
  = main id (λ text, bool_decide (text = "0.0"))
      (λ dir name, dir +:+ "/" +:+ name) (λ _, false)
      (Err (RuntimeError "Default process group has not been initialized")) 2
      h f ([], initial).
Proof. reflexivity. Qed.

Lemma sample_traced_run_returns :
  ∃ log st, sample_run.run sample_run.single sample_run.traced = (Ok (), (log, st)).
Proof. vm_compute. eexists _, _. reflexivity. Qed.

Lemma inconsistent_flags_stop_before_any_call_witness :
  sample_run.run sample_run.single sample_run.skipping
  = (Err AssertionError, ([], initial)).
Proof.
  rewrite sample_run_unfold.
  apply inconsistent_flags_stop_before_any_call. right. split; reflexivity.
Defined.

Lemma completed_run_trains_thirty_steps_witness :
  ∃ log st,
    sample_run.run sample_run.single sample_run.traced = (Ok (), (log, st))
    ∧ count ForwardPass log = 30%nat ∧ count BackwardPass log = 30%nat
    ∧ count OptimizerUpdate log = 30%nat ∧ count TimeLine log = 1%nat.
Proof.
  destruct sample_traced_run_returns as (log & st & Hrun).
  exists log, st. split; [exact Hrun |].
  rewrite sample_run_unfold in Hrun.
  exact (completed_run_trains_thirty_steps _ _ _ _ _ _ _ _ _ _ Hrun).
Defined.

Lemma completed_run_balances_ranges_witness :
  ∃ log st,
    sample_run.run sample_run.single sample_run.traced = (Ok (), (log, st))
    ∧ range_depth log 0 = Some 0%nat ∧ count Range log = 200%nat.
Proof.
  destruct sample_traced_run_returns as (log & st & Hrun).
  exists log, st. split; [exact Hrun |].
  rewrite sample_run_unfold in Hrun.
  exact (completed_run_balances_ranges _ _ _ _ _ _ _ _ _ _ Hrun).
Defined.

Lemma completed_run_compiles_once_witness :
  ∃ log st,
    sample_run.run sample_run.single sample_run.traced = (Ok (), (log, st))
    ∧ count ThunderCompile log = 1%nat ∧ count TorchCompile log = 0%nat.
Proof.
  destruct sample_traced_run_returns as (log & st & Hrun).
  exists log, st. split; [exact Hrun |].
  rewrite sample_run_unfold in Hrun.
  exact (completed_run_compiles_once _ _ _ _ _ _ _ _ _ _ Hrun).
Defined.

Lemma completed_run_reports_losses_witness :
  ∃ log st,
    sample_run.run sample_run.single sample_run.traced = (Ok (), (log, st))
    ∧ losses st = map (pair 1%nat) (seq 0 20)
    ∧ count StepLossLine log = 0%nat
    ∧ count LossAllReduce log = 0%nat
    ∧ count IterationLossLine log = 20%nat.
Proof.
  destruct sample_traced_run_returns as (log & st & Hrun).
  exists log, st. split; [exact Hrun |].
  rewrite sample_run_unfold in Hrun.
  exact (completed_run_reports_losses _ _ _ _ _ _ _ _ _ _ Hrun).
Defined.


Lemma profiled_run_on_other_rank_fails_witness :
  ∃ log st,
    sample_run.run sample_run.rank1 sample_run.profiled
    = (Err TypeError, (log, st))
    ∧ count ForwardPass log = 10%nat ∧ count TimeLine log = 0%nat.
Proof.
  rewrite sample_run_unfold.
  apply (profiled_run_on_other_rank_fails _ _ _ _ _ _ sample_run.rank1
           sample_run.profiled 1); [reflexivity | reflexivity | lia | | ].
  - intros _. reflexivity.
  - right. reflexivity.
Defined.
End bench_runs.
